(** * GRoot: proactive verification of DNS configurations

    A shallow embedding of the symbolic-resolution pipeline of the
    repository (the [Groot_v1] step modules, the [AutoGen] checkers and the
    baseline resolver of [raw API/run_baseline.py]) together with the
    properties established about it.

    Python values are modelled as follows.
    - [str] is [string]; the few [str] methods the code uses are in
      module [Py].
    - A [dict] whose iteration order is never observed is a [gmap]; a
      [dict] that is iterated (its insertion order is observable) is an
      association list in insertion order.
    - A [set] / [frozenset] is a [gset]; where the code turns a set into a
      list (whose order Python leaves unspecified) the model keeps the
      elements in first-insertion order.
    - [uuid.uuid4()] node identifiers are modelled by a fresh counter. *)

From Stdlib Require Import String Ascii ZArith List Lia Permutation DecimalString DecimalNat Sorted.
From stdpp Require Import gmap strings list fin_maps sets.

Open Scope string_scope.

(** ** Python string primitives *)

Module Py.

(** [s.endswith(suf)] *)
Definition endswith (s suf : string) : bool :=
  (String.length suf <=? String.length s)%nat &&
  String.eqb (substring (String.length s - String.length suf)
                        (String.length suf) s) suf.

(** [s.startswith(pre)] *)
Definition startswith (s pre : string) : bool := String.prefix pre s.

(** [s.split('.')], accumulating the current field in [cur]. *)
Fixpoint split_dot_aux (s cur : string) : list string :=
  match s with
  | EmptyString => [cur]
  | String c rest =>
      if Ascii.eqb c "."%char then cur :: split_dot_aux rest ""
      else split_dot_aux rest (cur ++ String c "")
  end.

Definition split_dot (s : string) : list string := split_dot_aux s "".

(** [".".join(l)] *)
Fixpoint join_dot (l : list string) : string :=
  match l with
  | [] => ""
  | [x] => x
  | x :: rest => x ++ "." ++ join_dot rest
  end.

(** [",".join(l)] *)
Fixpoint join_comma (l : list string) : string :=
  match l with
  | [] => ""
  | [x] => x
  | x :: rest => x ++ "," ++ join_comma rest
  end.

(** [[l for l in s.split('.') if l]] *)
Definition labels_of (s : string) : list string :=
  List.filter (fun l => negb (String.eqb l "")) (split_dot s).

(** [s[:-n]] for a non-negative [n]; Python reads [-0] as [0], so
    [s[:-0]] is the empty string. *)
Definition slice_drop_last (s : string) (n : nat) : string :=
  if (n =? 0)%nat then "" else substring 0 (String.length s - n) s.

(** [s.rstrip('.')] *)
Fixpoint rstrip_dot (s : string) : string :=
  match s with
  | EmptyString => EmptyString
  | String c rest =>
      match rstrip_dot rest with
      | EmptyString => if Ascii.eqb c "."%char then EmptyString else String c EmptyString
      | r => String c r
      end
  end.

(** [sorted(l)] on strings: insertion sort by code-point order. *)
Fixpoint insert_sorted (x : string) (l : list string) : list string :=
  match l with
  | [] => [x]
  | y :: rest => if String.leb x y then x :: l else y :: insert_sorted x rest
  end.

Definition sorted (l : list string) : list string :=
  fold_right insert_sorted [] l.

(** [x in l] for a list of strings *)
Definition mem (x : string) (l : list string) : bool :=
  existsb (String.eqb x) l.

(** [sep.join(l)] *)
Fixpoint join (sep : string) (l : list string) : string :=
  match l with
  | [] => ""
  | [x] => x
  | x :: rest => x ++ sep ++ join sep rest
  end.

(** The line feed. *)
Definition nl : string := String (Ascii.ascii_of_nat 10) "".

(** A value stored under a key of a dict: [None], a [bool], an [int] or a
    [str]. *)
Inductive value :=
| VNone
| VBool (b : bool)
| VInt (z : Z)
| VStr (s : string).

(** The truth value of [v] in a condition. *)
Definition truthy (v : value) : bool :=
  match v with
  | VNone => false
  | VBool b => b
  | VInt z => negb (z =? 0)%Z
  | VStr s => negb (String.eqb s "")
  end.

(** [str(n)] for a natural number. *)
Definition str_nat (n : nat) : string := NilEmpty.string_of_uint (Nat.to_uint n).

(** [str(v)], which is how an f-string formats [v]. *)
Definition str (v : value) : string :=
  match v with
  | VNone => "None"
  | VBool true => "True"
  | VBool false => "False"
  | VInt z => NilZero.string_of_int (Z.to_int z)
  | VStr s => s
  end.

End Py.

(** ** Groot_v1 *)

Module Groot_v1.

(** *** data_structure/dns_entities.py *)

Record ResourceRecord := mkRR {
  name : string;
  type : string;
  ttl : Z;
  rdata : string;
  class_ : string
}.

Record Zone := mkZone {
  origin : string;
  records : list ResourceRecord
}.

#[global] Instance ResourceRecord_eq_dec : EqDecision ResourceRecord.
Proof. solve_decision. Defined.

#[global] Instance Zone_eq_dec : EqDecision Zone.
Proof. solve_decision. Defined.

(** *** data_structure/configuration.py: [C = <S, Theta, Gamma, Omega>] *)

(** The declared type of [Gamma] is [Dict[str, List[str]]] (zone names), which
    is what step4 reads; step1 stores the zone objects themselves.  The
    record is therefore parameterised by what a [Gamma] entry holds. *)
Record DNSConfigurationObject (zone_ref : Type) := mkConfig {
  S_ : list string;
  Theta : list string;
  Gamma : gmap string (list zone_ref);
  Omega : gmap string string
}.
Arguments mkConfig {zone_ref}.
Arguments S_ {zone_ref}.
Arguments Theta {zone_ref}.
Arguments Gamma {zone_ref}.
Arguments Omega {zone_ref}.

(** *** step4: single-server symbolic lookup *)

(** [x if x.endswith('.') else x + "."] *)
Definition norm (x : string) : string :=
  if Py.endswith x "." then x else x ++ ".".

(** One iteration of the loop that fills [records_map]. *)
Definition records_map_add
    (records_map : gmap string (gmap string (list ResourceRecord)))
    (r : ResourceRecord) : gmap string (gmap string (list ResourceRecord)) :=
  let r_name := norm (name r) in
  let at_name := default ∅ (records_map !! r_name) in
  let at_type := default [] (at_name !! type r) in
  <[r_name := <[type r := (at_type ++ [r])%list]> at_name]> records_map.

Definition build_records_map (zone : Zone)
    : gmap string (gmap string (list ResourceRecord)) :=
  foldl records_map_add ∅ (records zone).

(** The loop [for i in range(1, len(q_labels) + 1)] of the
    closest-encloser search; [labels] is [q_labels[i-1:]]. *)
Fixpoint strip_leftmost
    (records_map : gmap string (gmap string (list ResourceRecord)))
    (z_origin : string) (labels : list string) : option string :=
  match labels with
  | [] => None
  | _ :: rest =>
      let sub_domain := Py.join_dot rest ++ "." in
      if (String.length sub_domain <? String.length z_origin)%nat
         || negb (Py.endswith sub_domain z_origin)
      then None
      else if bool_decide (is_Some (records_map !! sub_domain))
      then Some sub_domain
      else strip_leftmost records_map z_origin rest
  end.

Definition closest_encloser
    (records_map : gmap string (gmap string (list ResourceRecord)))
    (z_origin q_norm : string) : string :=
  if bool_decide (is_Some (records_map !! q_norm)) then q_norm
  else default z_origin
         (strip_leftmost records_map z_origin (Py.labels_of q_norm)).

(** The key of the [outcomes] dict and the value computed for one type. *)
Record outcome_key := mkKey {
  outcome_type : string;
  outcome_targets : list string;
  outcome_new_query : string
}.

#[global] Instance outcome_key_eq_dec : EqDecision outcome_key.
Proof. solve_decision. Defined.

Record outcome_data := mkData {
  data_types : list string;
  data_records : list ResourceRecord
}.

(** [t in rr_types] where [rr_types = set(rrset.keys())] *)
Definition has_type (rrset : gmap string (list ResourceRecord)) (t : string) : bool :=
  bool_decide (is_Some (rrset !! t)).

(** [rrset[t]] / [rrset.get(t, [])] *)
Definition rrs (rrset : gmap string (list ResourceRecord)) (t : string)
    : list ResourceRecord :=
  default [] (rrset !! t).

(** [cname_records[0]['rdata']]: the code indexes the first record.  The
    lists stored in [records_map] are created on their first [append], so
    they are never empty and the index never fails. *)
Definition first_rdata (l : list ResourceRecord) : string :=
  match l with
  | [] => ""
  | r :: _ => rdata r
  end.

(** The CNAME / data / NODATA cascade shared by the exact-match and the
    wildcard branch. *)
Definition authoritative_data
    (rrset : gmap string (list ResourceRecord)) (t : string)
    : outcome_key * list ResourceRecord :=
  if has_type rrset "CNAME" && negb (String.eqb t "CNAME") then
    let cname_records := rrs rrset "CNAME" in
    let cname_target := first_rdata cname_records in
    (mkKey "ANSQ" [] (norm cname_target), cname_records)
  else if has_type rrset t then
    (mkKey "ANS" [] "", rrs rrset t)
  else
    (mkKey "ANS" [] "", []).

Definition referral (rrset : gmap string (list ResourceRecord))
    : outcome_key * list ResourceRecord :=
  let ns_records := rrs rrset "NS" in
  let ns_targets := Py.sorted (List.map rdata ns_records) in
  (mkKey "REF" ns_targets "", ns_records).

(** The body of [for t in types], up to the computation of [key] and
    [used_records]. *)
Definition outcome_for
    (records_map : gmap string (gmap string (list ResourceRecord)))
    (closest_encloser q_norm t : string)
    : outcome_key * list ResourceRecord :=
  let rrset := default ∅ (records_map !! closest_encloser) in
  let has_dname := has_type rrset "DNAME" in
  let has_ns := has_type rrset "NS" in
  let has_soa := has_type rrset "SOA" in
  let is_delegation := has_ns && negb has_soa in
  if String.eqb closest_encloser q_norm then
    if is_delegation then referral rrset
    else authoritative_data rrset t
  else
    if has_dname then
      let dname_records := rrs rrset "DNAME" in
      let dname_target := norm (first_rdata dname_records) in
      let suffix_len := String.length closest_encloser in
      let prefix_ := Py.slice_drop_last q_norm suffix_len in
      (mkKey "ANSQ" [] (prefix_ ++ dname_target), dname_records)
    else if is_delegation then referral rrset
    else
      let wildcard_name := "*." ++ closest_encloser in
      match records_map !! wildcard_name with
      | Some w_rrset => authoritative_data w_rrset t
      | None => (mkKey "NX" [] "", [])
      end.

(** [outcomes[key]['types'].append(t); outcomes[key]['records'].extend(..)]
    on the insertion-ordered dict [outcomes]. *)
Fixpoint outcomes_add (outcomes : list (outcome_key * outcome_data))
    (key : outcome_key) (t : string) (used_records : list ResourceRecord)
    : list (outcome_key * outcome_data) :=
  match outcomes with
  | [] => [(key, mkData [t] used_records)]
  | (k, d) :: rest =>
      if bool_decide (k = key)
      then (k, mkData (data_types d ++ [t]) (data_records d ++ used_records)) :: rest
      else (k, d) :: outcomes_add rest key t used_records
  end.

(** The [answer] dict of an outcome group. *)
Record Answer := mkAnswer {
  answer_type : string;
  target_servers : option (list string);
  new_query : option string
}.

Record OutcomeGroup := mkGroup {
  types : list string;
  answer : Answer;
  group_records : list ResourceRecord
}.

Definition make_result (kd : outcome_key * outcome_data) : OutcomeGroup :=
  let '(k, d) := kd in
  mkGroup (data_types d)
    (mkAnswer (outcome_type k)
       (if String.eqb (outcome_type k) "REF" then Some (outcome_targets k) else None)
       (if String.eqb (outcome_type k) "ANSQ" then Some (outcome_new_query k) else None))
    (data_records d).

Definition symbolic_server_lookup (zone : Zone) (query : string)
    (types : list string) : list OutcomeGroup :=
  let records_map := build_records_map zone in
  let q_norm := norm query in
  let z_origin := norm (origin zone) in
  let ce := closest_encloser records_map z_origin q_norm in
  let outcomes :=
    foldl (fun outcomes t =>
             let '(key, used_records) := outcome_for records_map ce q_norm t in
             outcomes_add outcomes key t used_records)
          [] types in
  List.map make_result outcomes.

(** *** data_structure/equivalence_class.py *)

Record EquivalenceClass := mkEC {
  ec_id : string;
  domain_sequence : list string;
  query_types : list string
}.

(** *** data_structure/interpretation_graph.py

    Node identifiers are [uuid.uuid4()] strings in the source; the model
    numbers the nodes in creation order. *)

Record InterpretationNode := mkNode {
  node_id : nat;
  nameserver : string;
  current_query : string;
  query_type_bitmap : list string;
  tags : list string;
  node_records : list ResourceRecord;
  node_answer : option Answer
}.

Record InterpretationEdge := mkEdge {
  source_id : nat;
  target_id : nat;
  action : string
}.

#[global] Instance InterpretationEdge_eq_dec : EqDecision InterpretationEdge.
Proof. solve_decision. Defined.

Record InterpretationGraph := mkGraph {
  graph_ec_id : string;
  nodes : list InterpretationNode;
  edges : list InterpretationEdge
}.

(** *** step4: zone selection *)

Definition get_domain_from_sequence (sequence : list string) : string :=
  let labels :=
    List.filter (fun l => negb (String.eqb l "") && negb (String.eqb l ".")) sequence in
  Py.join_dot labels ++ ".".

(** The [is_match] flag: the zone name is a suffix of the query on a
    label boundary. *)
Definition is_match (z_name q_norm : string) : bool :=
  if String.eqb z_name "." then true
  else String.eqb q_norm z_name || Py.endswith q_norm ("." ++ z_name).

(** The three key formats tried in [zone_map['domain_to_zone']]. *)
Definition zone_data (domain_to_zone : gmap string Zone)
    (zone_name z_name : string) : option Zone :=
  match domain_to_zone !! zone_name with
  | Some z => Some z
  | None =>
      match domain_to_zone !! z_name with
      | Some z => Some z
      | None => domain_to_zone !! Py.rstrip_dot z_name
      end
  end.

(** One iteration of [for zone_name in served_zones]; the accumulator is
    [(best_zone, longest_match_len)]. *)
Definition best_zone_step (domain_to_zone : gmap string Zone) (q_norm : string)
    (acc : option Zone * Z) (zone_name : string) : option Zone * Z :=
  let z_name := norm zone_name in
  if is_match z_name q_norm then
    match zone_data domain_to_zone zone_name z_name with
    | Some z_obj =>
        let z_len := Z.of_nat (List.length (Py.labels_of z_name)) in
        if (snd acc <? z_len)%Z then (Some z_obj, z_len) else acc
    | None => acc
    end
  else acc.

Definition find_authoritative_zone (server query : string)
    (dns_config : DNSConfigurationObject string) (domain_to_zone : gmap string Zone)
    : option Zone :=
  match Gamma dns_config !! server with
  | None => None
  | Some served_zones =>
      fst (foldl (best_zone_step domain_to_zone (norm query))
                 (None, (-1)%Z) served_zones)
  end.

(** *** step4: the worklist loop of [generate_interpretation_graphs] *)

Record ResolutionState := mkState {
  server : string;
  query : string;
  state_types : list string
}.

(** A worklist entry [(state_dict, parent_node_id, edge_action)]. *)
Definition work_item : Type := ResolutionState * option nat * option string.

(** [(server, query, frozenset(current_types))] *)
Definition state_key (s : ResolutionState) : string * string * gset string :=
  (server s, query s, list_to_set (state_types s)).

Record builder := mkBuilder {
  graph_nodes : list InterpretationNode;
  graph_edges : list InterpretationEdge;
  visited_states : gmap (string * string * gset string) nat;
  worklist : list work_item;
  fresh : nat
}.

(** [edge_action if edge_action else 'unknown'] *)
Definition action_or_unknown (edge_action : option string) : string :=
  match edge_action with
  | Some a => if String.eqb a "" then "unknown" else a
  | None => "unknown"
  end.

(** The states enqueued for one outcome group of the node [node_id]
    ([answer['target_servers']] is present on a REF answer and
    [answer['new_query']] on an ANSQ answer). *)
Definition successors (Theta_ : list string) (node_id : nat) (query : string)
    (outcome : OutcomeGroup) : list work_item :=
  let sub_types := types outcome in
  let ans_type := answer_type (answer outcome) in
  if String.eqb ans_type "REF" then
    List.map (fun ns => (mkState ns query sub_types, Some node_id, Some "referral"))
             (default [] (target_servers (answer outcome)))
  else if String.eqb ans_type "ANSQ" then
    let new_query_ := default "" (new_query (answer outcome)) in
    List.map (fun root => (mkState root new_query_ sub_types, Some node_id, Some "rewrite"))
             (Theta_)
  else [].

(** [all_tags.add(ans_type)] followed by [list(all_tags)]: the distinct
    answer types, kept in first-insertion order. *)
Definition add_tag (all_tags : list string) (t : string) : list string :=
  if Py.mem t all_tags then all_tags else (all_tags ++ [t])%list.

(** [node['answer']]: the first ANS or NX answer among the outcomes. *)
Definition first_answer (outcomes : list OutcomeGroup) : option Answer :=
  head (List.map answer
          (List.filter (fun o => Py.mem (answer_type (answer o)) ["ANS"; "NX"]) outcomes)).

(** The edge from the parent, when there is a parent. *)
Definition parent_edge (parent_id : option nat) (target : nat)
    (edge_action : option string) : list InterpretationEdge :=
  match parent_id with
  | Some p => [mkEdge p target (action_or_unknown edge_action)]
  | None => []
  end.

(** One iteration of [while worklist], on a non-empty worklist. *)
Definition step (dns_config : DNSConfigurationObject string)
    (domain_to_zone : gmap string Zone) (b : builder) : builder :=
  match worklist b with
  | [] => b
  | (current_state, parent_id, edge_action) :: rest =>
      match visited_states b !! state_key current_state with
      | Some existing_node_id =>
          let new_edges :=
            List.filter (fun e => negb (bool_decide (e ∈ graph_edges b)))
                        (parent_edge parent_id existing_node_id edge_action) in
          mkBuilder (graph_nodes b) (graph_edges b ++ new_edges)
                    (visited_states b) rest (fresh b)
      | None =>
          let node_id := fresh b in
          let visited := <[state_key current_state := node_id]> (visited_states b) in
          let edges_ := (graph_edges b ++ parent_edge parent_id node_id edge_action)%list in
          let node tags_ records_ answer_ :=
            mkNode node_id (server current_state) (query current_state)
                   (state_types current_state) tags_ records_ answer_ in
          match find_authoritative_zone (server current_state) (query current_state)
                  dns_config domain_to_zone with
          | None =>
              mkBuilder (graph_nodes b ++ [node ["REFUSED"] [] None]) edges_
                        visited rest (S node_id)
          | Some zone =>
              let outcomes :=
                symbolic_server_lookup zone (query current_state)
                                       (state_types current_state) in
              let all_tags :=
                foldl add_tag [] (List.map (fun o => answer_type (answer o)) outcomes) in
              let all_records := List.concat (List.map group_records outcomes) in
              let enqueued :=
                List.concat
                  (List.map (successors (Theta dns_config) node_id (query current_state))
                            outcomes) in
              mkBuilder
                (graph_nodes b ++ [node all_tags all_records (first_answer outcomes)])
                edges_ visited (rest ++ enqueued) (S node_id)
          end
      end
  end.

(** [while worklist: ...]; the source loop has no bound of its own, so
    the model counts iterations and answers [None] when it runs out. *)
Fixpoint while_worklist (fuel : nat) (dns_config : DNSConfigurationObject string)
    (domain_to_zone : gmap string Zone) (b : builder) : option builder :=
  match worklist b with
  | [] => Some b
  | _ :: _ =>
      match fuel with
      | O => None
      | S fuel' =>
          while_worklist fuel' dns_config domain_to_zone
                         (step dns_config domain_to_zone b)
      end
  end.

(** The initial worklist: one state per root server. *)
Definition initial_builder (dns_config : DNSConfigurationObject string)
    (ec : EquivalenceClass) : builder :=
  let query_domain := get_domain_from_sequence (domain_sequence ec) in
  mkBuilder [] [] ∅
    (List.map (fun root => (mkState root query_domain (query_types ec), None, None))
              (Theta dns_config))
    0.

(** The interpretation graph of one equivalence class. *)
Definition interpretation_graph (fuel : nat) (dns_config : DNSConfigurationObject string)
    (domain_to_zone : gmap string Zone) (ec : EquivalenceClass)
    : option InterpretationGraph :=
  match while_worklist fuel dns_config domain_to_zone (initial_builder dns_config ec) with
  | Some b => Some (mkGraph (ec_id ec) (graph_nodes b) (graph_edges b))
  | None => None
  end.

Fixpoint generate_interpretation_graphs (fuel : nat)
    (equivalence_classes : list EquivalenceClass)
    (dns_config : DNSConfigurationObject string) (domain_to_zone : gmap string Zone)
    : option (list InterpretationGraph) :=
  match equivalence_classes with
  | [] => Some []
  | ec :: rest =>
      match interpretation_graph fuel dns_config domain_to_zone ec with
      | Some g =>
          match generate_interpretation_graphs fuel rest dns_config domain_to_zone with
          | Some gs => Some (g :: gs)
          | None => None
          end
      | None => None
      end
  end.

(** *** step5: [_check_lame_delegation] *)

Definition _check_lame_delegation (graph : InterpretationGraph) : bool :=
  existsb (fun node_data => Py.mem "REFUSED" (tags node_data)) (nodes graph).

(** *** step5: [verify_properties]

    A violation record is the dict the source builds, with the keys
    [type], [details] and [query]. *)

Definition violation (type_ details query_ : string) : gmap string Py.value :=
  {[ "type" := Py.VStr type_; "details" := Py.VStr details; "query" := Py.VStr query_ ]}.

(** [jobs_config]: the function reads its key [properties] only. *)
Record JobsProperties := mkJobs {
  properties : option (list string)
}.

Definition default_props : list string :=
  ["Rewrite Loop"; "Rewrite Blackholing"; "Lame Delegation";
   "Delegation Inconsistency"; "Answer Inconsistency"].

Section step5.

(** The graph checks other than [_check_lame_delegation]; each returns a
    [bool]. *)
Variable _check_rewrite_loop : InterpretationGraph -> bool.
Variable _check_rewrite_blackholing : InterpretationGraph -> bool.
Variable _check_delegation_inconsistency : InterpretationGraph -> bool.
Variable _check_answer_inconsistency : InterpretationGraph -> bool.

(** The body of [for prop in active_props]: what is appended to
    [verification_results] for one graph and one property name. *)
Definition check_property (graph : InterpretationGraph) (prop : string)
    : list (gmap string Py.value) :=
  if String.eqb prop "Rewrite Loop" then
    if _check_rewrite_loop graph
    then [violation "Rewrite Loop" "Cycle with rewrite detected" (graph_ec_id graph)]
    else []
  else if String.eqb prop "Rewrite Blackholing" then
    if _check_rewrite_blackholing graph
    then [violation "Rewrite Blackholing" "Rewritten path ends in NXDOMAIN"
                    (graph_ec_id graph)]
    else []
  else if String.eqb prop "Lame Delegation" then
    if _check_lame_delegation graph
    then [violation "Lame Delegation" "Node returned REFUSED" (graph_ec_id graph)]
    else []
  else if String.eqb prop "Delegation Inconsistency" then
    if _check_delegation_inconsistency graph
    then [violation "Delegation Inconsistency" "Record mismatch between parent and child"
                    (graph_ec_id graph)]
    else []
  else if String.eqb prop "Answer Inconsistency" then
    if _check_answer_inconsistency graph
    then [violation "Answer Inconsistency" "Different sink nodes return different answers"
                    (graph_ec_id graph)]
    else []
  else [].

Definition verify_properties (interpretation_graphs : list InterpretationGraph)
    (jobs_config : JobsProperties) : list (gmap string Py.value) :=
  let active_props := default default_props (properties jobs_config) in
  foldl (fun verification_results graph =>
           foldl (fun verification_results prop =>
                    (verification_results ++ check_property graph prop)%list)
                 verification_results active_props)
        [] interpretation_graphs.

End step5.

(** *** step6: [generate_final_report] *)

(** [record.get(key, default)] *)
Definition record_get (record : gmap string Py.value) (key : string)
    (default_ : Py.value) : Py.value :=
  default default_ (record !! key).

Record stats := mkStats {
  total_ecs : nat;
  passed : nat;
  failed : nat
}.

Definition log_entry (record : gmap string Py.value) : string :=
  "Property: " ++ Py.str (record_get record "property" (Py.VStr "Unknown Property"))
  ++ ", Query: " ++ Py.str (record_get record "query" (Py.VStr "Unknown Query"))
  ++ ", Reason: " ++ Py.str (record_get record "reason" (Py.VStr "Unknown Reason")).

(** One iteration of [for record in verification_results], on [stats]
    and [violation_logs]. *)
Definition tally (acc : stats * list string) (record : gmap string Py.value)
    : stats * list string :=
  let '(st, violation_logs) := acc in
  if Py.truthy (record_get record "has_violation" (Py.VBool false)) then
    (mkStats (S (total_ecs st)) (passed st) (S (failed st)),
     (violation_logs ++ [log_entry record])%list)
  else
    (mkStats (S (total_ecs st)) (S (passed st)) (failed st), violation_logs).

Definition summary_section (st : stats) : string :=
  "Total ECs: " ++ Py.str_nat (total_ecs st) ++ Py.nl
  ++ "Passed: " ++ Py.str_nat (passed st) ++ Py.nl
  ++ "Failed: " ++ Py.str_nat (failed st).

Definition generate_final_report (verification_results : list (gmap string Py.value))
    : string :=
  let '(st, violation_logs) := foldl tally (mkStats 0 0 0, []) verification_results in
  match violation_logs with
  | [] => summary_section st
  | _ :: _ => Py.join Py.nl violation_logs ++ Py.nl ++ Py.nl ++ summary_section st
  end.

(** *** data_structure/label_graph.py *)

Record LabelGraphNode := mkLGNode {
  id : string;
  label : string;
  is_wildcard : bool
}.

Record LabelGraphEdge := mkLGEdge {
  lg_source_id : string;
  lg_target_id : string;
  edge_type : string
}.

(** [nodes] is iterated to find the root, so it keeps its insertion
    order. *)
Record LabelGraph := mkLabelGraph {
  lg_nodes : list (string * LabelGraphNode);
  lg_edges : list LabelGraphEdge
}.

(** *** step3: equivalence-class generation *)

Definition MAX_DNS_LENGTH : nat := 20.

Definition SUPPORTED_QUERY_TYPES : list string :=
  ["A"; "AAAA"; "NS"; "MX"; "TXT"; "CNAME"; "SOA"].

(** A path element: a label, or the dict
    [{'label': 'alpha', 'constraints': [...]}]. *)
Inductive segment :=
| Label (l : string)
| Alpha (constraints : list string).

(** [nid in nodes] and [nodes[nid]] *)
Definition node_lookup (nodes_ : list (string * LabelGraphNode)) (nid : string)
    : option LabelGraphNode :=
  snd <$> List.find (fun kv => String.eqb (fst kv) nid) nodes_.

(** The loop over [edges] that fills [children_map] and [dname_map]. *)
Definition edge_maps_add (maps : gmap string (list string) * gmap string string)
    (edge : LabelGraphEdge) : gmap string (list string) * gmap string string :=
  let '(children_map, dname_map) := maps in
  let src := lg_source_id edge in
  let tgt := lg_target_id edge in
  if String.eqb (edge_type edge) "child" then
    (<[src := (default [] (children_map !! src) ++ [tgt])%list]> children_map, dname_map)
  else if String.eqb (edge_type edge) "dname" then
    (children_map, <[src := tgt]> dname_map)
  else maps.

Definition edge_maps (edges_ : list LabelGraphEdge)
    : gmap string (list string) * gmap string string :=
  foldl edge_maps_add (∅, ∅) edges_.

(** The first node whose label is ['.'] or the empty string. *)
Definition find_root (nodes_ : list (string * LabelGraphNode)) : option string :=
  fst <$> List.find (fun kv => String.eqb (label (snd kv)) "."
                               || String.eqb (label (snd kv)) "") nodes_.

(** A stack entry [{'node': .., 'path': .., 'history': ..}]. *)
Record dfs_state := mkDfs {
  dfs_node : string;
  path : list segment;
  history : gmap string nat
}.

(** One element of [domain_sequence_str]. *)
Definition segment_str (s : segment) : string :=
  match s with
  | Alpha constraints =>
      "alpha_except_[" ++ Py.join_comma (Py.sorted constraints) ++ "]"
  | Label l => l
  end.

(** [f"EC_{ec_counter}"] *)
Definition ec_name (ec_counter : nat) : string :=
  "EC_" ++ NilEmpty.string_of_uint (Nat.to_uint ec_counter).

(** The equivalence classes appended for one path; [ec_counter] is the
    counter before the first of them. *)
Fixpoint emit (ec_counter : nat) (domain_sequence_str : list string)
    (ts : list string) : list EquivalenceClass :=
  match ts with
  | [] => []
  | t :: rest =>
      mkEC (ec_name (S ec_counter)) domain_sequence_str [t]
      :: emit (S ec_counter) domain_sequence_str rest
  end.

(** The Type-2 loop guard: the node was already visited with the same
    path length in this branch. *)
Definition revisited (state : dfs_state) : bool :=
  bool_decide (history state !! dfs_node state = Some (List.length (path state))).

(** The entries pushed for the children of the current node and for its
    DNAME edge, in the order they are appended to the stack. *)
Definition pushed (nodes_ : list (string * LabelGraphNode))
    (children_map : gmap string (list string)) (dname_map : gmap string string)
    (current_node_id : string) (current_path : list segment)
    (node_history : gmap string nat) : list dfs_state :=
  let children_ids := default [] (children_map !! current_node_id) in
  let child_info :=
    omap (fun child_id =>
            match node_lookup nodes_ child_id with
            | Some n => Some (child_id, label n)
            | None => None
            end) children_ids in
  let sibling_labels :=
    List.filter (fun lbl => negb (String.eqb lbl "alpha")) (List.map snd child_info) in
  let for_children :=
    List.map (fun '(child_id, label_) =>
                let new_path :=
                  if String.eqb label_ "alpha"
                  then (current_path ++ [Alpha sibling_labels])%list
                  else (current_path ++ [Label label_])%list in
                mkDfs child_id new_path node_history) child_info in
  let for_dname :=
    match dname_map !! current_node_id with
    | Some target_node_id =>
        match node_lookup nodes_ target_node_id with
        | Some _ => [mkDfs target_node_id current_path node_history]
        | None => []
        end
    | None => []
    end in
  (for_children ++ for_dname)%list.

(** The traversal state: the stack (its head is the entry [stack.pop()]
    takes next), the classes emitted so far and the counter. *)
Record traversal := mkTraversal {
  stack : list dfs_state;
  ec_list : list EquivalenceClass;
  ec_counter : nat
}.

(** One iteration of [while stack]. *)
Definition visit (nodes_ : list (string * LabelGraphNode))
    (children_map : gmap string (list string)) (dname_map : gmap string string)
    (tr : traversal) : traversal :=
  match stack tr with
  | [] => tr
  | state :: rest =>
      let current_node_id := dfs_node state in
      let current_path := path state in
      if revisited state then mkTraversal rest (ec_list tr) (ec_counter tr)
      else
        let node_history :=
          <[current_node_id := List.length current_path]> (history state) in
        if (MAX_DNS_LENGTH <? List.length current_path)%nat
        then mkTraversal rest (ec_list tr) (ec_counter tr)
        else
          let domain_sequence_str := List.map segment_str (List.rev current_path) in
          let new_ecs := emit (ec_counter tr) domain_sequence_str SUPPORTED_QUERY_TYPES in
          let new_states :=
            pushed nodes_ children_map dname_map current_node_id current_path
                   node_history in
          mkTraversal (List.rev new_states ++ rest)
                      (ec_list tr ++ new_ecs)
                      (ec_counter tr + List.length SUPPORTED_QUERY_TYPES)
  end.

(** [while stack: ...] with an iteration budget. *)
Fixpoint while_stack (fuel : nat) (nodes_ : list (string * LabelGraphNode))
    (children_map : gmap string (list string)) (dname_map : gmap string string)
    (tr : traversal) : option traversal :=
  match stack tr with
  | [] => Some tr
  | _ :: _ =>
      match fuel with
      | O => None
      | S fuel' =>
          while_stack fuel' nodes_ children_map dname_map
                      (visit nodes_ children_map dname_map tr)
      end
  end.

Definition generate_equivalence_classes (fuel : nat) (label_graph : LabelGraph)
    : option (list EquivalenceClass) :=
  let '(children_map, dname_map) := edge_maps (lg_edges label_graph) in
  match find_root (lg_nodes label_graph) with
  | None => Some []
  | Some root_node_id =>
      let root_label :=
        default "." (label <$> node_lookup (lg_nodes label_graph) root_node_id) in
      ec_list <$>
        while_stack fuel (lg_nodes label_graph) children_map dname_map
          (mkTraversal [mkDfs root_node_id [Label root_label] ∅] [] 0)
  end.

(** *** step1: input parsing and configuration initialization *)

(** [os.path.join(a, b)] (POSIX) *)
Definition path_join (a b : string) : string :=
  if Py.startswith b "/" then b
  else if String.eqb a "" || Py.endswith a "/" then a ++ b
  else a ++ "/" ++ b.

(** What a [NameServer] / [authoritative_servers] entry may hold. *)
Inductive ns_value :=
| NsList (l : list string)
| NsStr (s : string)
| NsOther.

(** A decoded entry of [ZoneFiles]; each key may be absent, and the two
    spellings of each key are both accepted. *)
Record zone_info := mkZoneInfo {
  domain_name : option string;
  Origin : option string;
  file_name_ : option string;
  FileName : option string;
  authoritative_servers : option ns_value;
  NameServer : option ns_value
}.

(** The decoded [metadata.json]. *)
Record Metadata := mkMetadata {
  root_nameservers : option (list string);
  TopNameServers : option (list string);
  zones : option (list zone_info);
  ZoneFiles : option (list zone_info)
}.

(** What reading [metadata.json] gives. *)
Inductive metadata_file :=
| NotFound
| DecodeError (e : string)
| Decoded (meta : Metadata).

(** [get_key(data, [k1, k2], default)] for the two spellings of a key *)
Definition get_key {A} (k1 k2 : option A) (default_ : A) : A :=
  match k1 with
  | Some v => v
  | None => default default_ k2
  end.

(** [get_key(data, [k1, k2])], whose default is [None] *)
Definition get_key_or_none {A} (k1 k2 : option A) : option A :=
  match k1 with
  | Some v => Some v
  | None => k2
  end.

Section step1.

(** The files on disk: the text of each file that exists. *)
Variable disk : gmap string string.

(** The record list the tokenizer (lines 21-141 of step1, built on
    [shlex.split]) extracts from the text of a zone file. *)
Variable zone_records : string -> list ResourceRecord.

(** [parse_zone_file]: the records and the lines printed. *)
Definition parse_zone_file (file_path : string)
    : list ResourceRecord * list string :=
  match disk !! file_path with
  | None => ([], ["Warning: Zone file not found: " ++ file_path])
  | Some text => (zone_records text, [])
  end.

(** The state threaded through [for zone_info in zones_list]. *)
Record init_state := mkInit {
  s_set : gset string;
  gamma_dict : gmap string (list Zone);
  domain_to_zone_ : gmap string Zone;
  printed : list string
}.

(** [for ns_id in ns_list] *)
Definition register_server (zone_obj : Zone)
    (acc : gset string * gmap string (list Zone)) (ns_id : string)
    : gset string * gmap string (list Zone) :=
  let '(s, g) := acc in
  let served := default [] (g !! ns_id) in
  ({[ns_id]} ∪ s,
   <[ns_id := if bool_decide (zone_obj ∈ served) then served
              else (served ++ [zone_obj])%list]> g).

(** One iteration of [for zone_info in zones_list]. *)
Definition register_zone (dataset_path : string) (st : init_state)
    (zi : zone_info) : init_state :=
  let z_name := get_key (domain_name zi) (Origin zi) "" in
  let file_name := get_key (file_name_ zi) (FileName zi) "" in
  if String.eqb z_name "" || String.eqb file_name "" then st
  else
    let z_file_path := path_join dataset_path file_name in
    let '(parsed_records, out) := parse_zone_file z_file_path in
    let zone_obj := mkZone z_name parsed_records in
    let ns_list :=
      match get_key_or_none (authoritative_servers zi) (NameServer zi) with
      | Some (NsList l) => l
      | Some (NsStr s) => if String.eqb s "" then [] else [s]
      | _ => []
      end in
    let '(s, g) := foldl (register_server zone_obj) (s_set st, gamma_dict st) ns_list in
    mkInit s g (<[z_name := zone_obj]> (domain_to_zone_ st)) (printed st ++ out).

(** [input_parsing_and_configuration_initialization]; [meta] is what
    reading [metadata.json] gives.  The result is the configuration,
    the zone map and the lines printed. *)
Definition input_parsing_and_configuration_initialization
    (dataset_path : string) (meta : metadata_file)
    : DNSConfigurationObject Zone * gmap string Zone * list string :=
  let metadata_path := path_join dataset_path "metadata.json" in
  match meta with
  | NotFound =>
      (mkConfig [] [] ∅ ∅, ∅, ["Metadata file not found at " ++ metadata_path])
  | DecodeError e =>
      (mkConfig [] [] ∅ ∅, ∅, ["Error decoding metadata.json: " ++ e])
  | Decoded meta =>
      let root_servers := get_key (root_nameservers meta) (TopNameServers meta) [] in
      let theta_set : gset string := list_to_set root_servers in
      let zones_list := get_key (zones meta) (ZoneFiles meta) [] in
      let st :=
        foldl (register_zone dataset_path)
              (mkInit theta_set ∅ ∅ []) zones_list in
      let omega_dict : gmap string string :=
        list_to_map (List.map (fun ns_name => (ns_name, ns_name)) (elements (s_set st))) in
      (mkConfig (elements (s_set st)) (elements theta_set) (gamma_dict st) omega_dict,
       domain_to_zone_ st, printed st)
  end.

End step1.

End Groot_v1.

(** ** AutoGen/repro_paper_workspace *)

Module AutoGen.

(** *** dns_defs.py *)

Record Record_ := mkRecord {
  name : string;
  rtype : string;
  rclass : string;
  ttl : Z;
  rdata : string
}.

Record Zone := mkZone {
  zone_name : string;
  server_name : string;
  records : list Record_
}.

(** [Zone.get_records(name, rtype)] *)
Definition get_records (zone : Zone) (name_ : string) (rtype_ : option string)
    : list Record_ :=
  List.filter
    (fun r => String.eqb (name r) name_ &&
              match rtype_ with
              | None => true
              | Some t => String.eqb (rtype r) t
              end)
    (records zone).

(** *** groot_core.py: the zone map of [GrootEngine] *)



(** *** checkers.py *)






End AutoGen.

(** ** raw API/run_baseline.py *)

Module RawAPI.

(** "fuel" parameter 'k' to prevent infinite loops *)
Definition MAX_RESOLUTION_DEPTH : nat := 15.

(** [DomainName]: the list [labels], root label first.  Its [__len__] is
    the number of labels, so the root name is falsy. *)
Definition DomainName : Type := list string.

(** [self.is_prefix(other)]: [other.labels] is a prefix of [self.labels]. *)
Definition is_prefix (self other : DomainName) : bool :=
  if (List.length self <? List.length other)%nat then false
  else bool_decide (take (List.length other) self = other).

Record Query := mkQuery {
  q_domain : DomainName;
  q_type : string
}.

#[global] Instance Query_eq_dec : EqDecision Query.
Proof. solve_decision. Defined.

(** A record as the resolver loop reads it: its type and, for an NS
    record, the name server it names. *)
Record ResourceRecord := mkRR {
  rr_domain : DomainName;
  rr_type : string;
  rr_value : DomainName
}.

Record Zone := mkZone {
  zone_domain : DomainName;
  zone_records : list ResourceRecord
}.

(** [DNSAnswer(tag, data)]: the data is a record set, paired with the
    rewritten query under the tag ["AnsQ"]. *)
Inductive DNSAnswer :=
| Ans (data : list ResourceRecord)
| AnsQ (data : list ResourceRecord) (rewritten : Query)
| Ref (data : list ResourceRecord)
| NX (data : list ResourceRecord)
| Refused
| ServFail.

Definition tag (a : DNSAnswer) : string :=
  match a with
  | Ans _ => "Ans"
  | AnsQ _ _ => "AnsQ"
  | Ref _ => "Ref"
  | NX _ => "NX"
  | Refused => "Refused"
  | ServFail => "ServFail"
  end.

Definition get_records (a : DNSAnswer) : list ResourceRecord :=
  match a with
  | Ans d | AnsQ d _ | Ref d | NX d => d
  | Refused | ServFail => []
  end.

(** [DNSConfiguration]: the sets are listed in their iteration order. *)
Record DNSConfiguration := mkConfig {
  top_name_servers : list DomainName;
  zones_by_ns : list (DomainName * list Zone)
}.

(** [self.config.zones_by_ns.get(ns_domain, set())] *)
Definition zones_of (config : DNSConfiguration) (ns_domain : DomainName) : list Zone :=
  default [] (snd <$> List.find (fun kv => bool_decide (fst kv = ns_domain))
                                (zones_by_ns config)).

(** *** InterpretationGraph *)

Definition node_key : Type := DomainName * Query.

Record node_data := mkNode {
  ns : DomainName;
  node_query : Query;
  node_answer : DNSAnswer;
  depth : nat;
  is_sink : bool
}.

Record edge := mkEdge {
  from : node_key;
  to : node_key;
  edge_type : string
}.

Record InterpretationGraph := mkGraph {
  ec_query : Query;
  nodes : list (node_key * node_data);
  edges : list edge;
  entry_points : list node_key
}.

Definition has_node (g : InterpretationGraph) (key : node_key) : bool :=
  existsb (fun kv => bool_decide (fst kv = key)) (nodes g).

Definition add_node (g : InterpretationGraph) (ns_ : DomainName) (query : Query)
    (answer : DNSAnswer) (depth_ : nat) : InterpretationGraph :=
  if has_node g (ns_, query) then g
  else mkGraph (ec_query g)
         (nodes g ++ [((ns_, query), mkNode ns_ query answer depth_ true)])
         (edges g) (entry_points g).

Definition add_edge (g : InterpretationGraph) (from_key to_key : node_key)
    (edge_type_ : string) : InterpretationGraph :=
  mkGraph (ec_query g)
    (List.map (fun kv => if bool_decide (fst kv = from_key)
                         then (fst kv, mkNode (ns (snd kv)) (node_query (snd kv))
                                              (node_answer (snd kv)) (depth (snd kv)) false)
                         else kv) (nodes g))
    (edges g ++ [mkEdge from_key to_key edge_type_])
    (entry_points g).

(** *** Resolver.resolve *)

(** A queue entry [(from_ns, from_q, to_ns, to_q, depth)]; the first two
    components are [None] together. *)
Record entry := mkEntry {
  from_ : option node_key;
  ns_domain : DomainName;
  current_q : Query;
  entry_depth : nat
}.

Record resolver_state := mkResolver {
  graph : InterpretationGraph;
  q : list entry;
  visited : gset (DomainName * (DomainName * string) * nat)
}.

(** [if from_ns: graph.add_edge(...)]; a [DomainName] without labels is
    falsy. *)
Definition add_edge_from (g : InterpretationGraph) (from_key : option node_key)
    (to_key : node_key) (edge_type_ : string) : InterpretationGraph :=
  match from_key with
  | Some (from_ns, from_q) =>
      if bool_decide (from_ns = []) then g
      else add_edge g (from_ns, from_q) to_key edge_type_
  | None => g
  end.

Section Resolver.

(** [self._server_lookup], the single-server answer; the loop reads
    only the tag, the records and the rewritten query of what it
    returns. *)
Variable _server_lookup : DNSConfiguration -> DomainName -> Query -> DNSAnswer.

Variable config : DNSConfiguration.

(** The entries appended after the answer of [ns_domain] to
    [current_q] at [depth]. *)
Definition next_entries (ns_domain_ : DomainName) (current_q_ : Query)
    (depth_ : nat) (answer : DNSAnswer) : list entry :=
  match answer with
  | AnsQ _ rewritten_q =>
      let is_local :=
        existsb (fun zone => is_prefix (q_domain rewritten_q) (zone_domain zone))
                (zones_of config ns_domain_) in
      if is_local then
        [mkEntry (Some (ns_domain_, current_q_)) ns_domain_ rewritten_q (depth_ + 1)]
      else
        List.map (fun top_ns =>
                    mkEntry (Some (ns_domain_, current_q_)) top_ns rewritten_q (depth_ + 1))
                 (top_name_servers config)
  | Ref data =>
      List.map (fun record =>
                  mkEntry (Some (ns_domain_, current_q_)) (rr_value record) current_q_
                          (depth_ + 1))
               (List.filter (fun record => String.eqb (rr_type record) "NS") data)
  | _ => []
  end.

(** One iteration of [while q]. *)
Definition resolve_step (st : resolver_state) : resolver_state :=
  match q st with
  | [] => st
  | e :: rest =>
      let state := (ns_domain e, (q_domain (current_q e), q_type (current_q e)),
                    entry_depth e) in
      if bool_decide (state ∈ visited st) then mkResolver (graph st) rest (visited st)
      else
        let visited_ := {[state]} ∪ visited st in
        if (MAX_RESOLUTION_DEPTH <=? entry_depth e)%nat then
          let g := add_node (graph st) (ns_domain e) (current_q e) ServFail (entry_depth e) in
          let g := add_edge_from g (from_ e) (ns_domain e, current_q e) "Timeout" in
          mkResolver g rest visited_
        else
          let answer := _server_lookup config (ns_domain e) (current_q e) in
          let g := add_node (graph st) (ns_domain e) (current_q e) answer (entry_depth e) in
          let g := add_edge_from g (from_ e) (ns_domain e, current_q e) "Referral" in
          mkResolver g
            (rest ++ next_entries (ns_domain e) (current_q e) (entry_depth e) answer)
            visited_
  end.

(** [while q: ...] with an iteration budget. *)
Fixpoint while_q (fuel : nat) (st : resolver_state) : option resolver_state :=
  match q st with
  | [] => Some st
  | _ :: _ =>
      match fuel with
      | O => None
      | S fuel' => while_q fuel' (resolve_step st)
      end
  end.

Definition initial_state (query : Query) : resolver_state :=
  mkResolver
    (mkGraph query [] []
             (List.map (fun ns_domain_ => (ns_domain_, query)) (top_name_servers config)))
    (List.map (fun ns_domain_ => mkEntry None ns_domain_ query 0)
              (top_name_servers config))
    ∅.

Definition resolve (fuel : nat) (query : Query) : option InterpretationGraph :=
  graph <$> while_q fuel (initial_state query).

End Resolver.

End RawAPI.

(** * Properties *)

(** ** Vocabulary of the statements *)

Section lookup_vocabulary.

Import Groot_v1.

(** The records of [zone] owned by the (dot-terminated) name [n] with
    type [t], in zone order. *)
Definition records_at (zone : Zone) (n t : string) : list ResourceRecord :=
  List.filter (fun r => String.eqb (norm (name r)) n && String.eqb (type r) t)
              (records zone).

(** [records_map[n][t]], when both keys are present. *)
Definition lookup2 (records_map : gmap string (gmap string (list ResourceRecord)))
    (n t : string) : option (list ResourceRecord) :=
  records_map !! n ≫= (.!! t).

Definition nonempty {A} (l : list A) : option (list A) :=
  match l with
  | [] => None
  | _ => Some l
  end.

(** A zone whose name [a.example.] owns a CNAME next to an address
    record. *)
Definition cname_with_data_zone : Zone :=
  mkZone "example."
    [mkRR "example." "SOA" 3600 "ns1.example. admin.example. 1 2 3 4 5" "IN";
     mkRR "example." "NS" 3600 "ns1.example." "IN";
     mkRR "a.example." "CNAME" 3600 "b.example." "IN";
     mkRR "a.example." "A" 3600 "1.2.3.4" "IN"].


(** A zone that owns only its apex. *)
Definition apex_only_zone : Zone :=
  mkZone "example."
    [mkRR "example." "SOA" 3600 "ns1.example. admin.example. 1 2 3 4 5" "IN";
     mkRR "example." "NS" 3600 "ns2.example." "IN";
     mkRR "example." "NS" 3600 "ns1.example." "IN";
     mkRR "sub.example." "NS" 3600 "ns2.sub.example." "IN";
     mkRR "sub.example." "NS" 3600 "ns1.sub.example." "IN"].

(** Code-point order on strings, as a relation. *)
Definition string_le (a b : string) : Prop := String.leb a b = true.

(** What zone selection has established after the zone names
    [processed]: nothing matched, or the selected zone belongs to a
    matching name that no other matching name with zone data exceeds in
    labels. *)
Definition best_so_far (domain_to_zone : gmap string Zone) (q_norm : string)
    (processed : list string) (acc : option Zone * Z) : Prop :=
  (forall other, In other processed -> is_match (norm other) q_norm = true ->
     is_Some (zone_data domain_to_zone other (norm other)) ->
     (Z.of_nat (List.length (Py.labels_of (norm other))) <= snd acc)%Z) /\
  match fst acc with
  | None => snd acc = (-1)%Z
  | Some zone =>
      exists zone_name,
        In zone_name processed /\
        is_match (norm zone_name) q_norm = true /\
        zone_data domain_to_zone zone_name (norm zone_name) = Some zone /\
        snd acc = Z.of_nat (List.length (Py.labels_of (norm zone_name)))
  end.

End lookup_vocabulary.

Section graph_vocabulary.

Import Groot_v1.

(** No zone name served by [server_] is a suffix of [query_] on a label
    boundary. *)
Definition hosts_no_enclosing_zone (dns_config : DNSConfigurationObject string)
    (server_ query_ : string) : Prop :=
  forall served_zones zone_name,
    Gamma dns_config !! server_ = Some served_zones ->
    In zone_name served_zones ->
    is_match (norm zone_name) (norm query_) = false.

(** [p] is a sequence of node identifiers linked by edges of [g]. *)
Fixpoint walk (g : InterpretationGraph) (p : list nat) : Prop :=
  match p with
  | [] => True
  | u :: rest =>
      match rest with
      | [] => True
      | v :: _ => (exists a, In (mkEdge u v a) (edges g)) /\ walk g rest
      end
  end.

(** Every walk of [g] has at most [fuel] edges. *)
Definition paths_within (fuel : nat) (g : InterpretationGraph) : Prop :=
  forall p, walk g p -> (List.length p <= S fuel)%nat.

(** A server [ns1.] serving [example.], where [a.example.] and
    [b.example.] are CNAMEs of each other. *)
Definition cname_loop_zone : Zone :=
  mkZone "example."
    [mkRR "example." "SOA" 3600 "ns1.example. admin.example. 1 2 3 4 5" "IN";
     mkRR "a.example." "CNAME" 3600 "b.example." "IN";
     mkRR "b.example." "CNAME" 3600 "a.example." "IN"].

Definition cname_loop_config : DNSConfigurationObject string :=
  mkConfig ["ns1."] ["ns1."] {["ns1." := ["example."]]} {["ns1." := "ns1."]}.

Definition cname_loop_zones : gmap string Zone :=
  {["example." := cname_loop_zone]}.

Definition cname_loop_ec : EquivalenceClass :=
  mkEC "EC_1" ["a"; "example"; "."] ["A"].

(** The root server [ns1.] serves [example.] and delegates
    [sub.example.] to [ns2.], which is not a root; in the child zone
    [a.sub.example.] is a CNAME of [b.sub.example.]. *)
Definition parent_zone : Zone :=
  mkZone "example."
    [mkRR "example." "SOA" 3600 "ns1.example. admin.example. 1 2 3 4 5" "IN";
     mkRR "example." "NS" 3600 "ns1." "IN";
     mkRR "sub.example." "NS" 3600 "ns2." "IN"].

Definition child_zone : Zone :=
  mkZone "sub.example."
    [mkRR "sub.example." "SOA" 3600 "ns2. admin.example. 1 2 3 4 5" "IN";
     mkRR "sub.example." "NS" 3600 "ns2." "IN";
     mkRR "a.sub.example." "CNAME" 3600 "b.sub.example." "IN";
     mkRR "b.sub.example." "A" 3600 "1.1.1.1" "IN"].

Definition delegation_config : DNSConfigurationObject string :=
  mkConfig ["ns1."; "ns2."] ["ns1."]
    {["ns1." := ["example."]; "ns2." := ["sub.example."]]}
    {["ns1." := "ns1."; "ns2." := "ns2."]}.

Definition delegation_zones : gmap string Zone :=
  {["example." := parent_zone; "sub.example." := child_zone]}.

Definition delegation_ec : EquivalenceClass :=
  mkEC "EC_1" ["a"; "sub"; "example"; "."] ["A"].

(** The builder after the root has answered with the referral to
    [ns2.]: the state [(ns2., a.sub.example., [A])] is next. *)
Definition delegation_builder : builder :=
  step delegation_config delegation_zones
       (initial_builder delegation_config delegation_ec).

(** The walk that goes eight times round the cycle of two nodes. *)
Definition long_walk : list nat := [0; 1; 0; 1; 0; 1; 0; 1; 0; 1; 0; 1; 0; 1; 0; 1; 0]%nat.

(** The apex of [a.] owns a DNAME whose target [x.a.] lies below it. *)
Definition dname_below_zone : Zone :=
  mkZone "a."
    [mkRR "a." "SOA" 3600 "ns1.a. admin.a. 1 2 3 4 5" "IN";
     mkRR "a." "DNAME" 3600 "x.a." "IN"].

Definition dname_below_config : DNSConfigurationObject string :=
  mkConfig ["ns1."] ["ns1."] {["ns1." := ["a."]]} {["ns1." := "ns1."]}.

Definition dname_below_zones : gmap string Zone := {["a." := dname_below_zone]}.

Definition dname_below_ec : EquivalenceClass := mkEC "EC_1" ["b"; "a"; "."] ["A"].

(** A server that hosts nothing under [org.]. *)
Definition refused_builder : builder :=
  mkBuilder [] [] ∅ [(mkState "ns1." "www.example.org." ["A"], None, None)] 0.

End graph_vocabulary.

Section baseline_vocabulary.

Import RawAPI.

(** The depth bound as an invariant of the baseline loop: no queue entry
    and no recorded node lies deeper than the bound. *)
Definition within_bound (st : resolver_state) : Prop :=
  Forall (fun e => entry_depth e <= MAX_RESOLUTION_DEPTH) (q st) /\
  Forall (fun kv => depth (snd kv) <= MAX_RESOLUTION_DEPTH) (nodes (graph st)).

(** [key] is the source of some edge of [g]. *)
Definition outgoing (g : InterpretationGraph) (key : node_key) : bool :=
  existsb (fun e => bool_decide (from e = key)) (edges g).

(** A well-formed baseline graph: no key is recorded twice, every node is
    stored under its own server and query and is marked a sink exactly
    when no edge leaves it, and every edge joins two recorded nodes and is
    typed [Referral] or [Timeout]. *)
Definition baseline_graph_ok (g : InterpretationGraph) : Prop :=
  List.NoDup (List.map fst (nodes g)) /\
  Forall (fun kv => fst kv = (ns (snd kv), node_query (snd kv)) /\
                    is_sink (snd kv) = negb (outgoing g (fst kv))) (nodes g) /\
  Forall (fun e => has_node g (from e) = true /\ has_node g (to e) = true /\
                   (edge_type e = "Referral" \/ edge_type e = "Timeout")) (edges g).

(** The invariant of the baseline loop: the graph is well formed and
    every queue entry comes from a recorded node. *)
Definition resolver_ok (st : resolver_state) : Prop :=
  baseline_graph_ok (graph st) /\
  Forall (fun e => match from_ e with
                   | Some key => has_node (graph st) key = true
                   | None => True
                   end) (q st).

(** A root server that refers every query to [ns.com], which answers. *)
Definition referring_lookup (config : DNSConfiguration) (ns_domain_ : DomainName)
    (query : Query) : DNSAnswer :=
  if bool_decide (ns_domain_ = ["root-servers"; "a"])
  then Ref [mkRR ["com"] "NS" ["com"; "ns"]]
  else Ans [mkRR (q_domain query) (q_type query) ["192.0.2.1"]].

Definition referring_config : DNSConfiguration :=
  mkConfig [["root-servers"; "a"]] [].

Definition referred_query : Query := mkQuery ["com"; "www"] "A".

End baseline_vocabulary.

Section ec_vocabulary.

Import Groot_v1.

(** What an equivalence class stands for: its domain and its types. *)
Definition shape (ec : EquivalenceClass) : list string * list string :=
  (domain_sequence ec, query_types ec).

(** One class per domain and query type, domain by domain. *)
Definition cross_product (domains : list (list string)) (ts : list string)
    : list (list string * list string) :=
  List.concat (List.map (fun d => List.map (fun t => (d, [t])) ts) domains).

(** The classes are those of some domains, none longer than the bound,
    each paired with every supported query type. *)
Definition emitted_ok (ecs : list EquivalenceClass) : Prop :=
  exists domains,
    Forall (fun d => List.length d <= MAX_DNS_LENGTH) domains /\
    List.map shape ecs = cross_product domains SUPPORTED_QUERY_TYPES.

(** The nodes not yet recorded in the history at path length [len]. *)
Definition unvisited (nodes_ : list (string * LabelGraphNode))
    (h : gmap string nat) (len : nat) : nat :=
  List.length
    (List.filter (fun kv => negb (bool_decide (h !! fst kv = Some len))) nodes_).

(** The termination measure of a stack entry: the labels still allowed
    on the path, then the nodes still unvisited at this path length. *)
Definition dfs_measure (nodes_ : list (string * LabelGraphNode)) (s : dfs_state) : nat :=
  (S MAX_DNS_LENGTH - List.length (path s)) * S (List.length nodes_)
  + unvisited nodes_ (history s) (List.length (path s)).

(** The node of a stack entry is a node of the graph. *)
Definition known (nodes_ : list (string * LabelGraphNode)) (s : dfs_state) : Prop :=
  is_Some (node_lookup nodes_ (dfs_node s)).

(** The type set the specification names. *)
Definition specified_query_types : list string :=
  ["A"; "AAAA"; "NS"; "MX"; "TXT"; "CNAME"; "SOA"; "DNAME"].

(** A label graph that is only the root. *)
Definition root_only_graph : LabelGraph :=
  mkLabelGraph [("n0", mkLGNode "n0" "." false)] [].

(** [a.com.] and [b.com.] are DNAMEs of each other. *)
Definition dname_cycle_graph : LabelGraph :=
  mkLabelGraph
    [("n0", mkLGNode "n0" "." false); ("n1", mkLGNode "n1" "com" false);
     ("n2", mkLGNode "n2" "a" false); ("n3", mkLGNode "n3" "b" false)]
    [mkLGEdge "n0" "n1" "child"; mkLGEdge "n1" "n2" "child";
     mkLGEdge "n1" "n3" "child"; mkLGEdge "n2" "n3" "dname";
     mkLGEdge "n3" "n2" "dname"].

End ec_vocabulary.

Section checker_vocabulary.

Import AutoGen.





End checker_vocabulary.

Section parsing_vocabulary.

Import Groot_v1.

(** The declared origin and file name of a [ZoneFiles] entry. *)
Definition declared_origin (zi : zone_info) : string :=
  get_key (domain_name zi) (Origin zi) "".

Definition declared_file (zi : zone_info) : string :=
  get_key (file_name_ zi) (FileName zi) "".

(** An entry the loop does not skip. *)
Definition usable (zi : zone_info) : Prop :=
  declared_origin zi <> "" /\ declared_file zi <> "".

(** A dataset whose metadata names two zone files, the first of which
    is not on disk. *)
Definition missing_entry : zone_info :=
  mkZoneInfo None (Some "example.") None (Some "example.txt") None
             (Some (NsStr "ns1.example.")).

Definition present_entry : zone_info :=
  mkZoneInfo None (Some "sub.example.") None (Some "sub.example.txt") None
             (Some (NsStr "ns2.example.")).

Definition sample_metadata : Metadata :=
  mkMetadata None (Some ["ns1.example."]) None (Some [missing_entry; present_entry]).

Definition sample_disk : gmap string string :=
  {["data/zone_files/sub.example.txt" := "sub.example. 3600 IN A 1.2.3.4"]}.

End parsing_vocabulary.

Section builder_vocabulary.

Import Groot_v1.

(** The state a node stands for. *)
Definition node_key (n : InterpretationNode) : string * string * gset string :=
  (nameserver n, current_query n, list_to_set (query_type_bitmap n)).

(** What links a parent node to a state reached from it: a referral
    leaves a node tagged REF and keeps the query name, a rewrite leaves
    a node tagged ANSQ. *)
Definition link_ok (parent : InterpretationNode) (action_ query_ : string) : Prop :=
  (action_ = "referral" /\ In "REF" (tags parent) /\ current_query parent = query_) \/
  (action_ = "rewrite" /\ In "ANSQ" (tags parent)).

Definition edge_ok (nodes_ : list InterpretationNode) (e : InterpretationEdge) : Prop :=
  exists u v,
    nodes_ !! source_id e = Some u /\ nodes_ !! target_id e = Some v /\
    link_ok u (action e) (current_query v).

Definition item_ok (nodes_ : list InterpretationNode) (w : work_item) : Prop :=
  match w with
  | (s, None, edge_action) => edge_action = None
  | (s, Some p, edge_action) =>
      exists u a, nodes_ !! p = Some u /\ edge_action = Some a /\ link_ok u a (query s)
  end.

(** The invariant of the worklist loop. *)
Definition builder_ok (b : builder) : Prop :=
  fresh b = List.length (graph_nodes b) /\
  (forall i n, graph_nodes b !! i = Some n -> node_id n = i) /\
  (forall key i, visited_states b !! key = Some i ->
     exists n, graph_nodes b !! i = Some n /\ node_key n = key) /\
  (forall i n, graph_nodes b !! i = Some n -> visited_states b !! node_key n = Some i) /\
  Forall (edge_ok (graph_nodes b)) (graph_edges b) /\
  Forall (item_ok (graph_nodes b)) (worklist b).

(** What the invariant says of a finished graph. *)
Definition graph_ok (g : InterpretationGraph) : Prop :=
  List.map node_id (nodes g) = seq 0 (List.length (nodes g)) /\
  List.NoDup (List.map node_key (nodes g)) /\
  Forall (edge_ok (nodes g)) (edges g).

End builder_vocabulary.

Section ec_id_vocabulary.

Import Groot_v1.

(** The invariant of the traversal that concerns names and roots: the
    classes emitted so far are numbered from 1, every class ends in the
    root label [r], and so does the path of every stack entry. *)
Definition traversal_ok (r : string) (tr : traversal) : Prop :=
  ec_counter tr = List.length (ec_list tr) /\
  List.map ec_id (ec_list tr) = List.map ec_name (seq 1 (List.length (ec_list tr))) /\
  Forall (fun ec => List.last (domain_sequence ec) r = r /\ domain_sequence ec <> [])
         (ec_list tr) /\
  Forall (fun s => exists rest, path s = Label r :: rest) (stack tr).

End ec_id_vocabulary.

Section configuration_vocabulary.

Import Groot_v1.

(** The invariant of the loop over the [ZoneFiles] entries, for the root
    servers [theta]. *)
Definition init_ok (theta : gset string) (st : init_state) : Prop :=
  theta ⊆ s_set st /\
  forall ns_id served,
    gamma_dict st !! ns_id = Some served ->
    ns_id ∈ s_set st /\ List.NoDup served /\
    forall z, In z served -> origin z <> "" /\ is_Some (domain_to_zone_ st !! origin z).

(** An entry that declares no origin. *)
Definition nameless_entry : zone_info :=
  mkZoneInfo None None None (Some "orphan.txt") None (Some (NsStr "ns9.example.")).

End configuration_vocabulary.

Section report_vocabulary.

Import Groot_v1.

(** The test of the report loop on one record. *)
Definition has_violation (record : gmap string Py.value) : bool :=
  Py.truthy (record_get record "has_violation" (Py.VBool false)).

(** A record as the report reads it, failing. *)
Definition failing_record : gmap string Py.value :=
  {[ "has_violation" := Py.VBool true; "property" := Py.VStr "Lame Delegation";
     "query" := Py.VStr "EC_1"; "reason" := Py.VStr "Node returned REFUSED" ]}.

End report_vocabulary.
(** ** The single-server lookup of Groot_v1 *)

Section lookup_properties.

Import Groot_v1.

Lemma lookup2_add records_map r n t :
  lookup2 (records_map_add records_map r) n t =
  if String.eqb (norm (name r)) n && String.eqb (type r) t
  then Some (default [] (lookup2 records_map n t) ++ [r])%list
  else lookup2 records_map n t.
Proof.
  unfold lookup2, records_map_add.
  destruct (String.eqb_spec (norm (name r)) n) as [->|Hn]; simpl.
  - rewrite lookup_insert_eq. simpl.
    destruct (String.eqb_spec (type r) t) as [->|Ht].
    + rewrite lookup_insert_eq. destruct (records_map !! n); reflexivity.
    + rewrite lookup_insert_ne by congruence.
      destruct (records_map !! n); [reflexivity | apply lookup_empty].
  - rewrite lookup_insert_ne by congruence. reflexivity.
Qed.

Lemma nonempty_snoc {A} (l : list A) x :
  Some (default [] (nonempty l) ++ [x])%list = nonempty (l ++ [x]).
Proof. destruct l; reflexivity. Qed.

Lemma lookup2_foldl recs n t :
  lookup2 (foldl records_map_add ∅ recs) n t =
  nonempty (List.filter (fun r => String.eqb (norm (name r)) n && String.eqb (type r) t) recs).
Proof.
  induction recs as [|r recs IH] using rev_ind.
  - unfold lookup2. simpl. rewrite lookup_empty. reflexivity.
  - rewrite foldl_app. simpl. rewrite lookup2_add, IH, List.filter_app. simpl.
    destruct (_ && _).
    + apply nonempty_snoc.
    + rewrite app_nil_r. reflexivity.
Qed.

(** [records_map] holds, under a name and a type, exactly the records of
    the zone with that owner and type, and no empty list. *)
Lemma records_map_lookup zone n t :
  lookup2 (build_records_map zone) n t = nonempty (records_at zone n t).
Proof. apply lookup2_foldl. Qed.

Lemma rrset_lookup records_map n t :
  default ∅ (records_map !! n) !! t = lookup2 records_map n t.
Proof.
  unfold lookup2. destruct (records_map !! n); [reflexivity | apply lookup_empty].
Qed.

Lemma has_type_records_at zone n t :
  has_type (default ∅ (build_records_map zone !! n)) t =
  negb (bool_decide (records_at zone n t = [])).
Proof.
  unfold has_type. rewrite rrset_lookup, records_map_lookup.
  destruct (records_at zone n t); reflexivity.
Qed.

Lemma rrs_records_at zone n t :
  rrs (default ∅ (build_records_map zone !! n)) t = records_at zone n t.
Proof.
  unfold rrs. rewrite rrset_lookup, records_map_lookup.
  destruct (records_at zone n t); reflexivity.
Qed.

Lemma authoritative_data_at zone n t :
  authoritative_data (default ∅ (build_records_map zone !! n)) t =
  if negb (bool_decide (records_at zone n "CNAME" = [])) && negb (String.eqb t "CNAME")
  then (mkKey "ANSQ" [] (norm (first_rdata (records_at zone n "CNAME"))),
        records_at zone n "CNAME")
  else (mkKey "ANS" [] "", records_at zone n t).
Proof.
  unfold authoritative_data.
  rewrite !has_type_records_at, !rrs_records_at.
  destruct (negb (bool_decide (records_at zone n "CNAME" = [])) && negb (String.eqb t "CNAME"));
    [reflexivity |].
  case_bool_decide as Ht; simpl; [rewrite Ht |]; reflexivity.
Qed.

(** On a single type the lookup returns the one group of that type. *)
Lemma lookup_single zone query t :
  symbolic_server_lookup zone query [t] =
  let records_map := build_records_map zone in
  let ce := closest_encloser records_map (norm (origin zone)) (norm query) in
  let o := outcome_for records_map ce (norm query) t in
  [make_result (fst o, mkData [t] (snd o))].
Proof.
  unfold symbolic_server_lookup. simpl.
  destruct (outcome_for _ _ _ t) as [key used]. reflexivity.
Qed.

(** The delegation test at the closest encloser, on the zone's records. *)
Lemma is_delegation_at zone n :
  has_type (default ∅ (build_records_map zone !! n)) "NS"
  && negb (has_type (default ∅ (build_records_map zone !! n)) "SOA") = false <->
  records_at zone n "NS" = [] \/ records_at zone n "SOA" <> [].
Proof.
  rewrite !has_type_records_at.
  destruct (records_at zone n "NS"), (records_at zone n "SOA"); simpl;
    split; intros Hd; try done; auto.
  destruct Hd; congruence.
Qed.

(** *** Exact match at a non-delegation name *)

(** C2 (as amended): on an exact match at a name that is not a delegation,
    a CNAME owned by the name wins for every queried type other than
    CNAME, whether or not records of the queried type exist there: the
    outcome is ANSQ with the target of the first CNAME and carries the
    CNAME records.  Otherwise the outcome is ANS with the records of the
    queried type at that name (none of them: NODATA). *)
Theorem C2_exact_match_cname_before_data (zone : Zone) (query t : string) :
  closest_encloser (build_records_map zone) (norm (origin zone)) (norm query)
    = norm query ->
  records_at zone (norm query) "NS" = [] \/ records_at zone (norm query) "SOA" <> [] ->
  symbolic_server_lookup zone query [t] =
  [ if negb (bool_decide (records_at zone (norm query) "CNAME" = []))
       && negb (String.eqb t "CNAME")
    then mkGroup [t]
           (mkAnswer "ANSQ" None
              (Some (norm (first_rdata (records_at zone (norm query) "CNAME")))))
           (records_at zone (norm query) "CNAME")
    else mkGroup [t] (mkAnswer "ANS" None None) (records_at zone (norm query) t) ].
Proof.
  intros Hce Hdeleg. rewrite lookup_single. cbv zeta. rewrite Hce.
  unfold outcome_for. rewrite String.eqb_refl.
  apply is_delegation_at in Hdeleg. rewrite Hdeleg.
  rewrite authoritative_data_at.
  destruct (negb (bool_decide (records_at zone (norm query) "CNAME" = []))
            && negb (String.eqb t "CNAME")); reflexivity.
Qed.

Lemma C2_exact_match_cname_before_data_witness :
  closest_encloser (build_records_map cname_with_data_zone)
    (norm (origin cname_with_data_zone)) (norm "a.example.") = norm "a.example." /\
  (records_at cname_with_data_zone (norm "a.example.") "NS" = [] \/
   records_at cname_with_data_zone (norm "a.example.") "SOA" <> []) /\
  symbolic_server_lookup cname_with_data_zone "a.example." ["CNAME"] =
  [ mkGroup ["CNAME"] (mkAnswer "ANS" None None)
      [mkRR "a.example." "CNAME" 3600 "b.example." "IN"] ].
Proof.
  split; [vm_compute; reflexivity |].
  split; [left; vm_compute; reflexivity |].
  rewrite (C2_exact_match_cname_before_data cname_with_data_zone "a.example." "CNAME");
    [vm_compute; reflexivity | vm_compute; reflexivity | left; vm_compute; reflexivity].
Defined.

(** C2 fails as stated: [a.example.] is an exact match, is no delegation
    and owns an A record, yet the outcome for type A is the CNAME
    rewrite, not ANS. *)
Lemma C2_counterexample :
  closest_encloser (build_records_map cname_with_data_zone)
    (norm (origin cname_with_data_zone)) (norm "a.example.") = norm "a.example." /\
  records_at cname_with_data_zone (norm "a.example.") "NS" = [] /\
  records_at cname_with_data_zone (norm "a.example.") "A" <> [] /\
  List.map (fun g => answer_type (answer g))
           (symbolic_server_lookup cname_with_data_zone "a.example." ["A"]) = ["ANSQ"].
Proof. vm_compute. repeat split; discriminate. Qed.

(** *** The grouping of the outcomes *)

Lemma outcomes_add_types outcomes key t used :
  Permutation (List.concat (List.map (fun kd => data_types (snd kd))
                                     (outcomes_add outcomes key t used)))
              (t :: List.concat (List.map (fun kd => data_types (snd kd)) outcomes)).
Proof.
  induction outcomes as [|[k d] rest IH]; simpl.
  - reflexivity.
  - case_bool_decide; simpl.
    + rewrite <- app_assoc. simpl.
      symmetry. apply Permutation_cons_app. reflexivity.
    + rewrite IH. symmetry. apply (Permutation_middle (data_types d) _ t).
Qed.



Lemma outcomes_fold_types (f : string -> outcome_key * list ResourceRecord) ts :
  Permutation
    (List.concat (List.map (fun kd => data_types (snd kd))
       (foldl (fun outcomes t => let '(key, used) := f t in
                                 outcomes_add outcomes key t used) [] ts)))
    ts.
Proof.
  induction ts as [|t ts IH] using rev_ind.
  - reflexivity.
  - rewrite foldl_app. simpl. destruct (f t) as [key used].
    rewrite outcomes_add_types, IH. apply Permutation_cons_append.
Qed.

Lemma lookup_types_permutation zone query ts :
  Permutation (List.concat (List.map types (symbolic_server_lookup zone query ts))) ts.
Proof.
  unfold symbolic_server_lookup. rewrite List.map_map.
  erewrite List.map_ext; [apply outcomes_fold_types|].
  intros [k d]. reflexivity.
Qed.

(** In a duplicate-free concatenation an element lies in one block. *)
Lemma concat_NoDup_unique {A} (ls : list (list A)) i j a b x :
  NoDup (List.concat ls) ->
  ls !! i = Some a -> ls !! j = Some b -> In x a -> In x b -> i = j.
Proof.
  revert i j. induction ls as [|l ls IH]; intros i j Hnd Hi Hj Ha Hb.
  - discriminate.
  - simpl in Hnd. apply NoDup_app in Hnd as (Hl & Hdisj & Hrest).
    assert (Hin : forall k c, ls !! k = Some c -> In x c -> x ∈ List.concat ls).
    { intros k c Hk Hc. apply list_elem_of_In, in_concat. exists c.
      split; [|assumption]. apply list_elem_of_In. eapply list_elem_of_lookup_2, Hk. }
    destruct i as [|i], j as [|j]; simpl in *.
    + reflexivity.
    + injection Hi as <-. exfalso. eapply Hdisj; [apply list_elem_of_In|]; eauto.
    + injection Hj as <-. exfalso. eapply Hdisj; [apply list_elem_of_In|]; eauto.
    + f_equal. eauto.
Qed.

(** C10: for a duplicate-free list of query types, every input type lies
    in the [types] list of exactly one outcome group of
    [symbolic_server_lookup], and no group holds a type that was not
    asked. *)
Theorem C10_lookup_partitions_types (zone : Zone) (query : string) (ts : list string) :
  List.NoDup ts ->
  (forall t, In t ts ->
     exists i g, symbolic_server_lookup zone query ts !! i = Some g /\
                 In t (types g) /\
                 forall j g', symbolic_server_lookup zone query ts !! j = Some g' ->
                              In t (types g') -> j = i) /\
  (forall g t, In g (symbolic_server_lookup zone query ts) -> In t (types g) -> In t ts).
Proof.
  intros Hnd.
  pose proof (lookup_types_permutation zone query ts) as Hperm.
  assert (Hnd' : NoDup (List.concat (List.map types (symbolic_server_lookup zone query ts)))).
  { apply NoDup_ListNoDup. eapply Permutation_NoDup; [symmetry; exact Hperm | exact Hnd]. }
  split.
  - intros t Ht.
    apply (Permutation_in _ (Permutation_sym Hperm)) in Ht.
    apply in_concat in Ht as (l & Hl & Htl).
    apply in_map_iff in Hl as (g & <- & Hg).
    apply list_elem_of_In, list_elem_of_lookup in Hg as (i & Hi).
    exists i, g. split; [assumption|]. split; [assumption|].
    intros j g' Hj Hg'.
    eapply (concat_NoDup_unique _ j i _ _ t Hnd').
    + rewrite list_lookup_fmap, Hj. reflexivity.
    + rewrite list_lookup_fmap, Hi. reflexivity.
    + assumption.
    + assumption.
  - intros g t Hg Ht.
    apply (Permutation_in _ Hperm). apply in_concat.
    exists (types g). split; [apply in_map; assumption | assumption].
Qed.

Lemma C10_lookup_partitions_types_witness :
  List.NoDup ["A"; "CNAME"; "MX"] /\
  forall g t, In g (symbolic_server_lookup cname_with_data_zone "a.example."
                      ["A"; "CNAME"; "MX"]) ->
              In t (types g) -> In t ["A"; "CNAME"; "MX"].
Proof.
  assert (Hnd : List.NoDup ["A"; "CNAME"; "MX"]).
  { repeat constructor; simpl; intuition discriminate. }
  split; [exact Hnd|].
  exact (proj2 (C10_lookup_partitions_types cname_with_data_zone "a.example."
                  ["A"; "CNAME"; "MX"] Hnd)).
Defined.

(** *** Which record a rewrite follows *)





End lookup_properties.
(** ** The interpretation-graph builder of Groot_v1 *)

Section builder_properties.

Import Groot_v1.

Lemma mem_In x l : Py.mem x l = true <-> In x l.
Proof.
  unfold Py.mem. rewrite existsb_exists. split.
  - intros (y & Hy & Heq). apply String.eqb_eq in Heq. subst. assumption.
  - intros Hx. exists x. split; [assumption | apply String.eqb_refl].
Qed.

Lemma best_zone_no_match domain_to_zone q_norm served_zones acc :
  (forall zone_name, In zone_name served_zones ->
                     is_match (norm zone_name) q_norm = false) ->
  foldl (best_zone_step domain_to_zone q_norm) acc served_zones = acc.
Proof.
  revert acc. induction served_zones as [|z zs IH]; intros acc Hno; simpl.
  - reflexivity.
  - unfold best_zone_step at 2. rewrite (Hno z) by (left; reflexivity).
    apply IH. intros zn Hzn. apply Hno. right. assumption.
Qed.

Lemma no_enclosing_zone_refused dns_config domain_to_zone server_ query_ :
  hosts_no_enclosing_zone dns_config server_ query_ ->
  find_authoritative_zone server_ query_ dns_config domain_to_zone = None.
Proof.
  intros Hno. unfold find_authoritative_zone.
  destruct (Gamma dns_config !! server_) as [served|] eqn:Hg; [|reflexivity].
  rewrite best_zone_no_match; [reflexivity|].
  intros zn Hzn. eapply Hno; eauto.
Qed.

Lemma check_lame_delegation_spec graph :
  _check_lame_delegation graph = true <->
  exists node, In node (nodes graph) /\ In "REFUSED" (tags node).
Proof.
  unfold _check_lame_delegation. rewrite existsb_exists.
  split; intros (node & Hn & Ht); exists node; (split; [assumption|]);
    apply mem_In; assumption.
Qed.

(** C5: when the server of a fresh state hosts no zone whose origin is a
    suffix of the query, zone selection finds nothing, the step records
    the node with the single tag REFUSED and enqueues no successor; and
    the lame-delegation check flags a graph exactly when one of its nodes
    carries the tag REFUSED. *)
Theorem C5_refused_node_is_terminal
    (dns_config : DNSConfigurationObject string) (domain_to_zone : gmap string Zone)
    (b : builder) (s : ResolutionState) (parent_id : option nat)
    (edge_action : option string) (rest : list work_item) :
  worklist b = (s, parent_id, edge_action) :: rest ->
  visited_states b !! state_key s = None ->
  hosts_no_enclosing_zone dns_config (server s) (query s) ->
  find_authoritative_zone (server s) (query s) dns_config domain_to_zone = None /\
  graph_nodes (step dns_config domain_to_zone b) =
    (graph_nodes b ++
     [mkNode (fresh b) (server s) (query s) (state_types s) ["REFUSED"] [] None])%list /\
  worklist (step dns_config domain_to_zone b) = rest /\
  forall graph,
    _check_lame_delegation graph = true <->
    exists node, In node (nodes graph) /\ In "REFUSED" (tags node).
Proof.
  intros Hw Hfresh Hno.
  pose proof (no_enclosing_zone_refused _ domain_to_zone _ _ Hno) as Hnone.
  split; [exact Hnone|].
  unfold step. rewrite Hw, Hfresh, Hnone. simpl.
  split; [reflexivity|]. split; [reflexivity|].
  apply check_lame_delegation_spec.
Qed.

Lemma C5_refused_node_is_terminal_witness :
  worklist refused_builder
    = [(mkState "ns1." "www.example.org." ["A"], None, None)] /\
  hosts_no_enclosing_zone cname_loop_config "ns1." "www.example.org." /\
  graph_nodes (step cname_loop_config cname_loop_zones refused_builder) =
    [mkNode 0 "ns1." "www.example.org." ["A"] ["REFUSED"] [] None] /\
  worklist (step cname_loop_config cname_loop_zones refused_builder) = [].
Proof.
  assert (Hno : hosts_no_enclosing_zone cname_loop_config "ns1." "www.example.org.").
  { intros served zone_name Hs Hz. vm_compute in Hs. injection Hs as <-.
    destruct Hz as [<-|[]]. vm_compute. reflexivity. }
  split; [reflexivity|]. split; [exact Hno|].
  destruct (C5_refused_node_is_terminal cname_loop_config cname_loop_zones
              refused_builder (mkState "ns1." "www.example.org." ["A"]) None None []
              eq_refl eq_refl Hno) as (_ & Hnodes & Hwork & _).
  split; [exact Hnodes | exact Hwork].
Defined.

(** *** Successors of a rewrite *)

Lemma parent_edge_recorded dns_config domain_to_zone b s p a rest :
  worklist b = (s, Some p, Some a) :: rest ->
  a <> "" ->
  exists target,
    visited_states (step dns_config domain_to_zone b) !! state_key s = Some target /\
    In (mkEdge p target a) (graph_edges (step dns_config domain_to_zone b)).
Proof.
  intros Hw Ha. apply String.eqb_neq in Ha.
  unfold step, parent_edge, action_or_unknown. rewrite Hw, Ha.
  destruct (visited_states b !! state_key s) as [existing|] eqn:Hv.
  - exists existing. simpl. split; [assumption|].
    case_bool_decide as Hin; simpl.
    + rewrite app_nil_r. apply list_elem_of_In. assumption.
    + apply in_or_app. right. left. reflexivity.
  - exists (fresh b).
    destruct (find_authoritative_zone _ _ _ _); simpl;
      (split; [apply lookup_insert_eq|]);
      apply in_or_app; right; left; reflexivity.
Qed.

(** C3 (as amended): when the builder processes a fresh state answered by
    a zone, it appends the successors of every outcome group to the
    worklist; for an ANSQ group these are [(root, new_query, sub_types)]
    for every root server of Theta, whatever zones the current server
    hosts, each carrying the action [rewrite]; and when such an entry is
    taken from the worklist, an edge from the rewriting node to the node
    of that state, tagged [rewrite], is in the graph. *)
Theorem C3_rewrite_restarts_at_every_root
    (dns_config : DNSConfigurationObject string) (domain_to_zone : gmap string Zone)
    (b : builder) (s : ResolutionState) (parent_id : option nat)
    (edge_action : option string) (rest : list work_item) (zone : Zone) :
  worklist b = (s, parent_id, edge_action) :: rest ->
  visited_states b !! state_key s = None ->
  find_authoritative_zone (server s) (query s) dns_config domain_to_zone = Some zone ->
  worklist (step dns_config domain_to_zone b) =
    (rest ++ List.concat
               (List.map (successors (Theta dns_config) (fresh b) (query s))
                         (symbolic_server_lookup zone (query s) (state_types s))))%list /\
  (forall outcome new_query_,
     answer_type (answer outcome) = "ANSQ" ->
     new_query (answer outcome) = Some new_query_ ->
     successors (Theta dns_config) (fresh b) (query s) outcome =
     List.map (fun root => (mkState root new_query_ (types outcome),
                            Some (fresh b), Some "rewrite"))
              (Theta dns_config)) /\
  (forall b' s' rest',
     worklist b' = (s', Some (fresh b), Some "rewrite") :: rest' ->
     exists target,
       visited_states (step dns_config domain_to_zone b') !! state_key s' = Some target /\
       In (mkEdge (fresh b) target "rewrite")
          (graph_edges (step dns_config domain_to_zone b'))).
Proof.
  intros Hw Hfresh Hzone. split; [|split].
  - unfold step. rewrite Hw, Hfresh, Hzone. reflexivity.
  - intros outcome nq Htag Hnq. unfold successors. rewrite Htag, Hnq. reflexivity.
  - intros b' s' rest' Hw'. eapply parent_edge_recorded; [eassumption | discriminate].
Qed.

Lemma C3_rewrite_restarts_at_every_root_witness :
  worklist delegation_builder
    = [(mkState "ns2." "a.sub.example." ["A"], Some 0%nat, Some "referral")] /\
  visited_states delegation_builder !! state_key (mkState "ns2." "a.sub.example." ["A"])
    = None /\
  find_authoritative_zone "ns2." "a.sub.example." delegation_config delegation_zones
    = Some child_zone /\
  worklist (step delegation_config delegation_zones delegation_builder) =
    [(mkState "ns1." "b.sub.example." ["A"], Some 1%nat, Some "rewrite")].
Proof.
  split; [vm_compute; reflexivity|].
  split; [vm_compute; reflexivity|].
  split; [vm_compute; reflexivity|].
  rewrite (proj1 (C3_rewrite_restarts_at_every_root delegation_config delegation_zones
                    delegation_builder (mkState "ns2." "a.sub.example." ["A"])
                    (Some 0%nat) (Some "referral") [] child_zone
                    ltac:(vm_compute; reflexivity) ltac:(vm_compute; reflexivity)
                    ltac:(vm_compute; reflexivity))).
  vm_compute. reflexivity.
Defined.

(** C3 fails as stated: [ns2.] answers [a.sub.example.] with a rewrite to
    [b.sub.example.] and is itself authoritative for [sub.example.], a
    suffix of the rewritten query, yet the state enqueued is the one at
    the root [ns1.], not the one at [ns2.]. *)
Lemma C3_counterexample :
  worklist delegation_builder
    = [(mkState "ns2." "a.sub.example." ["A"], Some 0%nat, Some "referral")] /\
  List.map (fun g => (answer_type (answer g), new_query (answer g)))
           (symbolic_server_lookup child_zone "a.sub.example." ["A"])
    = [("ANSQ", Some "b.sub.example.")] /\
  find_authoritative_zone "ns2." "b.sub.example." delegation_config delegation_zones
    = Some child_zone /\
  worklist (step delegation_config delegation_zones delegation_builder)
    = [(mkState "ns1." "b.sub.example." ["A"], Some 1%nat, Some "rewrite")] /\
  worklist (step delegation_config delegation_zones delegation_builder)
    <> [(mkState "ns2." "b.sub.example." ["A"], Some 1%nat, Some "rewrite")].
Proof. vm_compute. repeat split. discriminate. Qed.

(** *** Cycles in the graph *)

Lemma while_worklist_more fuel extra dns_config domain_to_zone b r :
  while_worklist fuel dns_config domain_to_zone b = Some r ->
  while_worklist (fuel + extra) dns_config domain_to_zone b = Some r.
Proof.
  revert b. induction fuel as [|fuel IH]; intros b; simpl.
  - destruct (worklist b) eqn:Hw; [|discriminate].
    intros H. destruct extra; simpl; rewrite Hw; assumption.
  - destruct (worklist b); [trivial | apply IH].
Qed.

Lemma interpretation_graph_more fuel extra dns_config domain_to_zone ec g :
  interpretation_graph fuel dns_config domain_to_zone ec = Some g ->
  interpretation_graph (fuel + extra) dns_config domain_to_zone ec = Some g.
Proof.
  unfold interpretation_graph.
  destruct (while_worklist fuel _ _ _) as [b|] eqn:Hb; [|discriminate].
  rewrite (while_worklist_more _ extra _ _ _ _ Hb). trivial.
Qed.

(** The graph of the CNAME loop: two nodes that rewrite to each other. *)
Lemma cname_loop_graph :
  interpretation_graph 3 cname_loop_config cname_loop_zones cname_loop_ec =
  Some (mkGraph "EC_1"
          [mkNode 0 "ns1." "a.example." ["A"] ["ANSQ"]
                  [mkRR "a.example." "CNAME" 3600 "b.example." "IN"] None;
           mkNode 1 "ns1." "b.example." ["A"] ["ANSQ"]
                  [mkRR "b.example." "CNAME" 3600 "a.example." "IN"] None]
          [mkEdge 0 1 "rewrite"; mkEdge 1 0 "rewrite"]).
Proof. vm_compute. reflexivity. Qed.

(** C1 fails as stated on the Groot_v1 builder: the graph of a CNAME loop
    is built, but its two nodes form a cycle of rewrite edges, so it has
    walks with more than 15 edges; no node is terminal and none carries a
    DepthExceeded tag. *)
Lemma C1_counterexample :
  ~ (forall dns_config domain_to_zone ec,
       exists fuel g,
         interpretation_graph fuel dns_config domain_to_zone ec = Some g /\
         paths_within 15 g).
Proof.
  intros Hclaim.
  destruct (Hclaim cname_loop_config cname_loop_zones cname_loop_ec)
    as (fuel & g & Hg & Hpaths).
  apply (interpretation_graph_more _ 3) in Hg.
  pose proof (interpretation_graph_more _ fuel _ _ _ _ cname_loop_graph) as Hg0.
  rewrite Nat.add_comm in Hg0. rewrite Hg0 in Hg. injection Hg as <-.
  specialize (Hpaths long_walk). simpl in Hpaths.
  assert (Hle : (17 <= 16)%nat); [|lia].
  apply Hpaths.
  repeat (split; [eexists; (left; reflexivity) || (right; left; reflexivity)|]).
  exact I.
Qed.

(** The visited-state cache does not bound the builder when a DNAME
    target lies below its owner: each rewrite yields a longer, new query
    ([b.a.], [b.x.a.], [b.x.x.a.], ...), and after 40 iterations the
    worklist still holds the next one. *)
Example dname_below_owner_keeps_growing :
  while_worklist 40 dname_below_config dname_below_zones
                 (initial_builder dname_below_config dname_below_ec) = None /\
  List.map (fun w => query (fst (fst w)))
    (worklist (Nat.iter 3 (step dname_below_config dname_below_zones)
                        (initial_builder dname_below_config dname_below_ec)))
  = ["b.x.x.x.a."].
Proof. vm_compute. split; reflexivity. Qed.

End builder_properties.
(** ** The baseline resolver: termination under the depth bound *)

Section baseline_properties.

Import RawAPI.

Variable _server_lookup : DNSConfiguration -> DomainName -> Query -> DNSAnswer.
Variable config : DNSConfiguration.

Local Abbreviation step_ := (resolve_step _server_lookup config).
Local Abbreviation while_ := (while_q _server_lookup config).

Lemma next_entries_depth ns_ cq d answer :
  Forall (fun e => entry_depth e = d + 1) (next_entries config ns_ cq d answer).
Proof.
  unfold next_entries. destruct answer; try (constructor; fail).
  - destruct (existsb _ (zones_of _ _)).
    + constructor; [reflexivity | constructor].
    + apply Forall_forall. intros e He. apply list_elem_of_In in He.
      apply in_map_iff in He as (x & <- & _). reflexivity.
  - apply Forall_forall. intros e He. apply list_elem_of_In in He.
    apply in_map_iff in He as (x & <- & _). reflexivity.
Qed.

(** What one iteration does to the queue: the head is taken, and what is
    appended lies one level deeper; nothing is appended at the bound. *)
Lemma resolve_step_queue st e rest :
  q st = e :: rest ->
  exists new,
    q (step_ st) = (rest ++ new)%list /\
    Forall (fun e' => entry_depth e' = entry_depth e + 1) new /\
    (MAX_RESOLUTION_DEPTH <= entry_depth e -> new = []).
Proof.
  intros Hq. unfold resolve_step. rewrite Hq.
  case_bool_decide.
  - exists []. simpl. rewrite app_nil_r. auto.
  - destruct (MAX_RESOLUTION_DEPTH <=? entry_depth e)%nat eqn:Hd.
    + exists []. simpl. rewrite app_nil_r. auto.
    + eexists. simpl. split; [reflexivity|]. split; [apply next_entries_depth|].
      apply Nat.leb_gt in Hd. lia.
Qed.

Lemma while_q_unfold fuel st e rest :
  q st = e :: rest -> while_ (S fuel) st = while_ fuel (step_ st).
Proof. intros Hq. simpl. rewrite Hq. reflexivity. Qed.

Lemma while_q_done fuel st : q st = [] -> while_ fuel st = Some st.
Proof. intros Hq. destruct fuel; simpl; rewrite Hq; reflexivity. Qed.

(** A whole level of the queue is consumed in as many iterations as it
    has entries, leaving only entries of the next level. *)
Lemma consume_level k q1 : forall q2 st,
  q st = (q1 ++ q2)%list ->
  Forall (fun e => k <= entry_depth e) q1 ->
  exists st' new,
    (forall fuel, while_ (List.length q1 + fuel) st = while_ fuel st') /\
    q st' = (q2 ++ new)%list /\
    Forall (fun e => S k <= entry_depth e) new /\
    (MAX_RESOLUTION_DEPTH <= k -> new = []).
Proof.
  induction q1 as [|e q1 IH]; intros q2 st Hq Hk.
  - exists st, []. simpl. rewrite app_nil_r. auto.
  - apply Forall_cons in Hk as [He Hk].
    destruct (resolve_step_queue st e (q1 ++ q2) Hq) as (new & Hq' & Hnew & Hstop).
    rewrite <- app_assoc in Hq'.
    destruct (IH (q2 ++ new)%list (step_ st) Hq' Hk) as (st' & new' & Hrun & Hq'' & Hnew' & Hstop').
    exists st', (new ++ new')%list. split; [|split; [|split]].
    + intros fuel.
      change (List.length (e :: q1) + fuel) with (S (List.length q1 + fuel)).
      rewrite (while_q_unfold _ _ _ _ Hq). apply Hrun.
    + rewrite Hq'', app_assoc. reflexivity.
    + apply Forall_app. split; [|assumption].
      eapply Forall_impl; [exact Hnew|]. simpl. intros e' He'. lia.
    + intros Hmax. rewrite Hstop by lia. rewrite Hstop' by assumption. reflexivity.
Qed.

Lemma while_q_terminates_from n : forall k st,
  MAX_RESOLUTION_DEPTH < k + n ->
  Forall (fun e => k <= entry_depth e) (q st) ->
  exists fuel st', while_ fuel st = Some st'.
Proof.
  induction n as [|n IH]; intros k st Hk Hq.
  - destruct (consume_level k (q st) [] st) as (st' & new & Hrun & Hq' & _ & Hstop);
      [rewrite app_nil_r; reflexivity | assumption |].
    rewrite Hstop in Hq' by lia.
    exists (List.length (q st) + 0), st'. rewrite Hrun. apply while_q_done. assumption.
  - destruct (consume_level k (q st) [] st) as (st' & new & Hrun & Hq' & Hnew & _);
      [rewrite app_nil_r; reflexivity | assumption |].
    destruct (IH (S k) st') as (fuel & st'' & Hfin); [lia | rewrite Hq'; assumption |].
    exists (List.length (q st) + fuel), st''. rewrite Hrun. assumption.
Qed.

Lemma add_node_bound g ns_ cq answer d :
  d <= MAX_RESOLUTION_DEPTH ->
  Forall (fun kv => depth (snd kv) <= MAX_RESOLUTION_DEPTH) (nodes g) ->
  Forall (fun kv => depth (snd kv) <= MAX_RESOLUTION_DEPTH)
         (nodes (add_node g ns_ cq answer d)).
Proof.
  intros Hd Hg. unfold add_node. destruct (has_node g _); [assumption|].
  simpl. apply Forall_app. split; [assumption|].
  constructor; [simpl; assumption | constructor].
Qed.

Lemma add_edge_from_bound g from_key to_key ty :
  Forall (fun kv => depth (snd kv) <= MAX_RESOLUTION_DEPTH) (nodes g) ->
  Forall (fun kv => depth (snd kv) <= MAX_RESOLUTION_DEPTH)
         (nodes (add_edge_from g from_key to_key ty)).
Proof.
  intros Hg. unfold add_edge_from. destruct from_key as [[from_ns from_q]|]; [|assumption].
  case_bool_decide; [assumption|]. simpl.
  apply Forall_fmap. eapply Forall_impl; [exact Hg|].
  intros kv Hkv. simpl. case_bool_decide; assumption.
Qed.

Lemma resolve_step_bound st : within_bound st -> within_bound (step_ st).
Proof.
  intros [Hq Hn]. unfold resolve_step.
  destruct (q st) as [|e rest] eqn:Heq; [split; [rewrite Heq|]; assumption|].
  apply Forall_cons in Hq as [He Hrest].
  case_bool_decide; [split; assumption|].
  destruct (MAX_RESOLUTION_DEPTH <=? entry_depth e)%nat eqn:Hd; split; simpl.
  - assumption.
  - apply add_edge_from_bound, add_node_bound; assumption.
  - apply Forall_app. split; [assumption|].
    apply Nat.leb_gt in Hd.
    eapply Forall_impl; [apply next_entries_depth|]. simpl. intros e' ->. lia.
  - apply add_edge_from_bound, add_node_bound; assumption.
Qed.

Lemma while_q_bound fuel : forall st st',
  within_bound st -> while_ fuel st = Some st' -> within_bound st'.
Proof.
  induction fuel as [|fuel IH]; intros st st' Hinv; simpl.
  - destruct (q st); [|discriminate]. intros [= <-]. assumption.
  - destruct (q st).
    + intros [= <-]. assumption.
    + apply IH, resolve_step_bound. assumption.
Qed.

Lemma initial_state_bound query : within_bound (initial_state config query).
Proof.
  split; simpl; [|constructor].
  apply Forall_fmap, Forall_forall. intros x _. simpl. lia.
Qed.

(** C1 (as amended): the baseline resolver always terminates.  Every
    queue entry carries its depth; an entry at depth 15 or more is not
    looked up and enqueues nothing (a new state is recorded with the
    answer ServFail), so for every configuration, lookup function and
    query the loop empties its queue, and every node of the resulting
    graph was recorded at a depth of at most 15. *)
Theorem C1_baseline_resolve_terminates (query : Query) :
  (exists fuel g,
     resolve _server_lookup config fuel query = Some g /\
     Forall (fun kv => depth (snd kv) <= MAX_RESOLUTION_DEPTH) (nodes g)) /\
  (forall g from_key ns_ cq extra rest seen,
     q (step_ (mkResolver g
                 (mkEntry from_key ns_ cq (MAX_RESOLUTION_DEPTH + extra) :: rest) seen))
     = rest) /\
  (forall from_key ns_ cq extra rest,
     List.map (fun kv => (fst kv, node_answer (snd kv), depth (snd kv)))
       (nodes (graph (step_ (mkResolver (mkGraph query [] [] [])
                               (mkEntry from_key ns_ cq (MAX_RESOLUTION_DEPTH + extra) :: rest)
                               ∅))))
     = [((ns_, cq), ServFail, MAX_RESOLUTION_DEPTH + extra)]).
Proof.
  split; [|split].
  - destruct (while_q_terminates_from (S MAX_RESOLUTION_DEPTH) 0 (initial_state config query))
      as (fuel & st & Hrun); [lia | apply Forall_forall; intros; lia |].
    exists fuel, (graph st). unfold resolve. rewrite Hrun. split; [reflexivity|].
    eapply while_q_bound; [apply initial_state_bound | exact Hrun].
  - intros g from_key ns_ cq extra rest seen.
    destruct (resolve_step_queue
                (mkResolver g (mkEntry from_key ns_ cq (MAX_RESOLUTION_DEPTH + extra) :: rest) seen)
                _ _ eq_refl) as (new & Hq & _ & Hstop).
    rewrite Hq, Hstop; [apply app_nil_r | unfold MAX_RESOLUTION_DEPTH; simpl; lia].
  - intros from_key ns_ cq extra rest.
    assert (Hd : (MAX_RESOLUTION_DEPTH <=? MAX_RESOLUTION_DEPTH + extra)%nat = true)
      by (apply Nat.leb_le; lia).
    revert Hd. generalize (MAX_RESOLUTION_DEPTH + extra). intros d Hd.
    unfold resolve_step.
    cbn [q visited graph ns_domain current_q entry_depth from_].
    rewrite bool_decide_eq_false_2 by set_solver. rewrite Hd.
    cbn [q visited graph ns_domain current_q entry_depth from_].
    destruct from_key as [[from_ns from_q]|]; [|reflexivity].
    unfold add_edge_from. case_bool_decide; [reflexivity|].
    cbn. case_bool_decide; reflexivity.
Qed.

(** What the baseline resolver enqueues after a rewrite: the state at the
    current server alone when that server hosts a zone whose domain is a
    prefix of the rewritten name, the states at all top name servers
    otherwise. *)
Lemma baseline_rewrite_locality ns_ cq d data rewritten_q :
  next_entries config ns_ cq d (AnsQ data rewritten_q) =
  if existsb (fun zone => is_prefix (q_domain rewritten_q) (zone_domain zone))
             (zones_of config ns_)
  then [mkEntry (Some (ns_, cq)) ns_ rewritten_q (d + 1)]
  else List.map (fun top_ns => mkEntry (Some (ns_, cq)) top_ns rewritten_q (d + 1))
                (top_name_servers config).
Proof. reflexivity. Qed.

End baseline_properties.
(** ** Equivalence-class generation *)

Section ec_properties.

Import Groot_v1.

Variable nodes_ : list (string * LabelGraphNode).
Variable children_map : gmap string (list string).
Variable dname_map : gmap string string.

Local Abbreviation visit_ := (visit nodes_ children_map dname_map).
Local Abbreviation while_ := (fun fuel => while_stack fuel nodes_ children_map dname_map).

Lemma filter_length_le {A} (f : A -> bool) l :
  List.length (List.filter f l) <= List.length l.
Proof. induction l as [|x l IH]; simpl; [lia|]. destruct (f x); simpl; lia. Qed.

Lemma filter_length_lt {A} (f g : A -> bool) l x :
  (forall y, f y = true -> g y = true) ->
  In x l -> f x = false -> g x = true ->
  List.length (List.filter f l) < List.length (List.filter g l).
Proof.
  intros Hfg. induction l as [|y l IH]; simpl; [intros []|].
  assert (Hle : List.length (List.filter f l) <= List.length (List.filter g l)).
  { clear IH. induction l as [|z l IHl]; simpl; [lia|].
    destruct (f z) eqn:Hf; [rewrite (Hfg _ Hf); simpl; lia|].
    destruct (g z); simpl; lia. }
  intros [->|Hin] Hf Hg.
  - rewrite Hf, Hg. simpl. lia.
  - specialize (IH Hin Hf Hg).
    destruct (f y) eqn:Hfy; [rewrite (Hfg _ Hfy); simpl; lia|].
    destruct (g y); simpl; lia.
Qed.

Lemma node_lookup_In nid n :
  node_lookup nodes_ nid = Some n -> exists kv, In kv nodes_ /\ fst kv = nid.
Proof.
  unfold node_lookup. destruct (List.find _ nodes_) as [kv|] eqn:Hfind; [|discriminate].
  intros _. apply find_some in Hfind as [Hin Heq].
  exists kv. split; [assumption | apply String.eqb_eq; assumption].
Qed.

Lemma In_node_lookup kv : In kv nodes_ -> is_Some (node_lookup nodes_ (fst kv)).
Proof.
  intros Hin. unfold node_lookup.
  destruct (List.find _ nodes_) as [kv'|] eqn:Hfind; [eexists; reflexivity|].
  exfalso. eapply find_none in Hfind; [|exact Hin].
  simpl in Hfind. rewrite String.eqb_refl in Hfind. discriminate.
Qed.

Lemma unvisited_le h len : unvisited nodes_ h len <= List.length nodes_.
Proof. apply filter_length_le. Qed.

(** Recording a node at the current path length leaves fewer nodes
    unvisited at that length. *)
Lemma unvisited_insert_lt h nid len :
  is_Some (node_lookup nodes_ nid) ->
  h !! nid <> Some len ->
  unvisited nodes_ (<[nid := len]> h) len < unvisited nodes_ h len.
Proof.
  intros [n Hn] Hnew. apply node_lookup_In in Hn as (kv & Hin & <-).
  unfold unvisited. apply (filter_length_lt _ _ _ kv).
  - intros y Hy. apply negb_true_iff, bool_decide_eq_false in Hy.
    apply negb_true_iff, bool_decide_eq_false. intros Hc. apply Hy.
    destruct (decide (fst kv = fst y)) as [He|He].
    + rewrite He. apply lookup_insert_eq.
    + rewrite lookup_insert_ne; assumption.
  - assumption.
  - apply negb_false_iff, bool_decide_eq_true. apply lookup_insert_eq.
  - apply negb_true_iff, bool_decide_eq_false. assumption.
Qed.

(** What is pushed: known nodes, with the history handed down, on the
    same path (a DNAME edge) or on a path one label longer (a child). *)
Lemma pushed_spec nid p h s' :
  In s' (pushed nodes_ children_map dname_map nid p h) ->
  known nodes_ s' /\ history s' = h /\
  (path s' = p \/ exists seg, path s' = (p ++ [seg])%list).
Proof.
  unfold pushed. intros Hin. apply in_app_or in Hin as [Hin|Hin].
  - apply in_map_iff in Hin as ([child_id lbl] & <- & Hin).
    apply list_elem_of_In, list_elem_of_omap in Hin as (cid & _ & Hf).
    destruct (node_lookup nodes_ cid) as [n|] eqn:Hn; [|discriminate].
    injection Hf as <- <-. unfold known. simpl.
    split; [rewrite Hn; eexists; reflexivity|]. split; [reflexivity|].
    right. destruct (String.eqb (label n) "alpha"); eexists; reflexivity.
  - destruct (dname_map !! nid) as [tgt|]; [|destruct Hin].
    destruct (node_lookup nodes_ tgt) as [n|] eqn:Hn; [|destruct Hin].
    destruct Hin as [<-|[]]. unfold known. simpl.
    split; [rewrite Hn; eexists; reflexivity|]. auto.
Qed.

Lemma pushed_measure s s' :
  known nodes_ s ->
  revisited s = false ->
  List.length (path s) <= MAX_DNS_LENGTH ->
  In s' (pushed nodes_ children_map dname_map (dfs_node s) (path s)
                (<[dfs_node s := List.length (path s)]> (history s))) ->
  known nodes_ s' /\ dfs_measure nodes_ s' < dfs_measure nodes_ s.
Proof.
  intros Hknown Hrev Hlen Hin.
  apply pushed_spec in Hin as (Hk & Hh & Hp). split; [assumption|].
  unfold dfs_measure. rewrite Hh.
  destruct Hp as [->|(seg & ->)].
  - apply Nat.add_lt_mono_l. apply unvisited_insert_lt; [assumption|].
    unfold revisited in Hrev. apply bool_decide_eq_false in Hrev. exact Hrev.
  - rewrite length_app. simpl.
    pose proof (unvisited_le (<[dfs_node s := List.length (path s)]> (history s))
                             (List.length (path s) + 1)).
    pose proof (unvisited_le (history s) (List.length (path s))).
    nia.
Qed.

Lemma emit_shape c d ts :
  List.map shape (emit c d ts) = List.map (fun t => (d, [t])) ts.
Proof.
  revert c. induction ts as [|t ts IH]; intros c; simpl; [reflexivity|].
  rewrite IH. reflexivity.
Qed.

Lemma emitted_ok_app ecs c (p : list segment) :
  List.length p <= MAX_DNS_LENGTH ->
  emitted_ok ecs ->
  emitted_ok (ecs ++ emit c (List.map segment_str (List.rev p)) SUPPORTED_QUERY_TYPES).
Proof.
  intros Hlen (domains & Hbound & Hshape).
  exists (domains ++ [List.map segment_str (List.rev p)])%list. split.
  - apply Forall_app. split; [assumption|].
    constructor; [|constructor].
    rewrite length_map, length_rev. assumption.
  - rewrite List.map_app, emit_shape, Hshape. unfold cross_product.
    rewrite List.map_app, concat_app. simpl. rewrite ?app_nil_r. reflexivity.
Qed.

(** The two ways an entry is abandoned, and what a visit does otherwise. *)
Lemma visit_revisited s rest ecs c :
  revisited s = true ->
  visit_ (mkTraversal (s :: rest) ecs c) = mkTraversal rest ecs c.
Proof. intros Hrev. unfold visit. simpl. rewrite Hrev. reflexivity. Qed.

Lemma visit_too_long s rest ecs c :
  MAX_DNS_LENGTH < List.length (path s) ->
  visit_ (mkTraversal (s :: rest) ecs c) = mkTraversal rest ecs c.
Proof.
  intros Hlen. unfold visit. simpl.
  apply Nat.ltb_lt in Hlen. rewrite Hlen. destruct (revisited s); reflexivity.
Qed.

Lemma visit_expand s rest ecs c :
  revisited s = false ->
  List.length (path s) <= MAX_DNS_LENGTH ->
  visit_ (mkTraversal (s :: rest) ecs c) =
  mkTraversal
    (List.rev (pushed nodes_ children_map dname_map (dfs_node s) (path s)
                      (<[dfs_node s := List.length (path s)]> (history s))) ++ rest)
    (ecs ++ emit c (List.map segment_str (List.rev (path s))) SUPPORTED_QUERY_TYPES)
    (c + List.length SUPPORTED_QUERY_TYPES).
Proof.
  intros Hrev Hlen. unfold visit. simpl stack. cbv iota. rewrite Hrev.
  replace (MAX_DNS_LENGTH <? List.length (path s))%nat with false
    by (symmetry; apply Nat.ltb_ge; assumption).
  reflexivity.
Qed.

Lemma while_stack_unfold fuel s rest ecs c :
  while_ (S fuel) (mkTraversal (s :: rest) ecs c) =
  while_ fuel (visit_ (mkTraversal (s :: rest) ecs c)).
Proof. reflexivity. Qed.

(** Every entry is dealt with, together with all it pushes, in finitely
    many iterations; the classes emitted meanwhile keep their shape. *)
Lemma drain m : forall s,
  dfs_measure nodes_ s < m -> known nodes_ s ->
  forall rest ecs c, emitted_ok ecs ->
  exists k ecs' c',
    emitted_ok ecs' /\
    forall fuel, while_ (k + fuel) (mkTraversal (s :: rest) ecs c)
                 = while_ fuel (mkTraversal rest ecs' c').
Proof.
  induction m as [|m IH]; intros s Hm Hknown rest ecs c Hok; [lia|].
  destruct (revisited s) eqn:Hrev.
  { exists 1, ecs, c. split; [assumption|]. intros fuel.
    change (1 + fuel) with (S fuel).
    rewrite while_stack_unfold, visit_revisited by assumption. reflexivity. }
  destruct (le_lt_dec (List.length (path s)) MAX_DNS_LENGTH) as [Hlen|Hlen].
  2:{ exists 1, ecs, c. split; [assumption|]. intros fuel.
      change (1 + fuel) with (S fuel).
      rewrite while_stack_unfold, visit_too_long by assumption. reflexivity. }
  assert (Hlist : forall l,
    (forall s', In s' l -> known nodes_ s' /\ dfs_measure nodes_ s' < m) ->
    forall rest ecs c, emitted_ok ecs ->
    exists k ecs' c',
      emitted_ok ecs' /\
      forall fuel, while_ (k + fuel) (mkTraversal (l ++ rest) ecs c)
                   = while_ fuel (mkTraversal rest ecs' c')).
  { clear rest ecs c Hok. induction l as [|s' l IHl]; intros Hl rest ecs c Hok.
    - exists 0, ecs, c. split; [assumption | reflexivity].
    - destruct (Hl s' (or_introl eq_refl)) as [Hk' Hm'].
      destruct (IH s' Hm' Hk' (l ++ rest)%list ecs c Hok) as (k1 & ecs1 & c1 & Hok1 & Hrun1).
      destruct (IHl (fun x Hx => Hl x (or_intror Hx)) rest ecs1 c1 Hok1)
        as (k2 & ecs2 & c2 & Hok2 & Hrun2).
      exists (k1 + k2), ecs2, c2. split; [assumption|]. intros fuel.
      rewrite <- Nat.add_assoc. simpl app. rewrite Hrun1. apply Hrun2. }
  destruct (Hlist
              (List.rev (pushed nodes_ children_map dname_map (dfs_node s) (path s)
                                (<[dfs_node s := List.length (path s)]> (history s))))
              (fun s' Hs' =>
                 let H := pushed_measure s s' Hknown Hrev Hlen (proj2 (in_rev _ _) Hs') in
                 conj (proj1 H) (Nat.lt_le_trans _ _ _ (proj2 H) (proj1 (Nat.lt_succ_r _ _) Hm)))
              rest
              (ecs ++ emit c (List.map segment_str (List.rev (path s))) SUPPORTED_QUERY_TYPES)%list
              (c + List.length SUPPORTED_QUERY_TYPES)
              (emitted_ok_app _ _ _ Hlen Hok))
    as (k & ecs' & c' & Hok' & Hrun).
  exists (S k), ecs', c'. split; [assumption|]. intros fuel.
  change (S k + fuel) with (S (k + fuel)).
  rewrite while_stack_unfold, visit_expand by assumption. apply Hrun.
Qed.

End ec_properties.

Section ec_theorems.

Import Groot_v1.

Lemma find_root_known nodes_ root_node_id :
  find_root nodes_ = Some root_node_id ->
  is_Some (node_lookup nodes_ root_node_id).
Proof.
  unfold find_root. destruct (List.find _ nodes_) as [kv|] eqn:Hfind; [|discriminate].
  intros [= <-]. apply find_some in Hfind as [Hin _].
  apply In_node_lookup. assumption.
Qed.

(** The traversal returns, on every label graph, classes of the shape
    [emitted_ok]. *)
Lemma generate_equivalence_classes_returns label_graph :
  exists fuel ecs,
    generate_equivalence_classes fuel label_graph = Some ecs /\ emitted_ok ecs.
Proof.
  unfold generate_equivalence_classes.
  destruct (edge_maps (lg_edges label_graph)) as [children_map dname_map].
  destruct (find_root (lg_nodes label_graph)) as [root|] eqn:Hroot.
  - set (s := mkDfs root _ ∅).
    destruct (drain (lg_nodes label_graph) children_map dname_map
                    (S (dfs_measure (lg_nodes label_graph) s)) s (Nat.lt_succ_diag_r _)
                    (find_root_known _ _ Hroot) [] [] 0)
      as (k & ecs & c & Hok & Hrun).
    { exists []. split; [constructor | reflexivity]. }
    exists k, ecs. rewrite <- (Nat.add_0_r k), Hrun. simpl. auto.
  - exists 0, []. split; [reflexivity|]. exists []. split; [constructor | reflexivity].
Qed.

Lemma cross_product_length domains ts :
  List.length (cross_product domains ts) = List.length domains * List.length ts.
Proof.
  unfold cross_product. induction domains as [|d ds IH]; simpl; [reflexivity|].
  rewrite length_app, length_map, IH. reflexivity.
Qed.

Lemma cross_product_domains domains ts d t :
  In (d, t) (cross_product domains ts) -> In d domains.
Proof.
  unfold cross_product. intros Hin. apply in_concat in Hin as (l & Hl & Hd).
  apply in_map_iff in Hl as (d' & <- & Hd').
  apply in_map_iff in Hd as (t' & [= <- _] & _). assumption.
Qed.

(** C4 (as amended): the classes generated are, for the emitted domains in
    order, one class per domain and query type of the list
    [A, AAAA, NS, MX, TXT, CNAME, SOA], each class carrying that single
    type; DNAME is not a supported query type. *)
Theorem C4_domains_times_seven_types (label_graph : LabelGraph) :
  exists fuel ecs domains,
    generate_equivalence_classes fuel label_graph = Some ecs /\
    List.map shape ecs
      = cross_product domains ["A"; "AAAA"; "NS"; "MX"; "TXT"; "CNAME"; "SOA"] /\
    Forall (fun ec => query_types ec <> ["DNAME"]) ecs.
Proof.
  destruct (generate_equivalence_classes_returns label_graph)
    as (fuel & ecs & Hgen & domains & _ & Hshape).
  exists fuel, ecs, domains. split; [assumption|]. split; [exact Hshape|].
  apply Forall_forall. intros ec Hec Hdname. apply list_elem_of_In in Hec.
  apply (in_map shape) in Hec. rewrite Hshape in Hec. unfold shape in Hec.
  rewrite Hdname in Hec. unfold cross_product in Hec.
  apply in_concat in Hec as (l & Hl & Hin).
  apply in_map_iff in Hl as (d & <- & _).
  simpl in Hin. intuition discriminate.
Qed.

(** C4 fails as stated: for the graph that is only the root, the seven
    classes of the domain [.] are generated, which is not the product of
    any list of domains with the eight specified types. *)
Lemma C4_counterexample :
  exists ecs,
    generate_equivalence_classes 2 root_only_graph = Some ecs /\
    List.map shape ecs
      = [(["."], ["A"]); (["."], ["AAAA"]); (["."], ["NS"]); (["."], ["MX"]);
         (["."], ["TXT"]); (["."], ["CNAME"]); (["."], ["SOA"])] /\
    ~ exists domains, List.map shape ecs = cross_product domains specified_query_types.
Proof.
  eexists. split; [vm_compute; reflexivity|]. split; [vm_compute; reflexivity|].
  intros (domains & Hshape). apply (f_equal (@List.length _)) in Hshape.
  rewrite cross_product_length in Hshape. vm_compute in Hshape.
  destruct domains as [|d ds]; simpl in Hshape; [discriminate|].
  rewrite Nat.mul_comm in Hshape. simpl in Hshape. lia.
Qed.

(** C7: equivalence-class generation returns on every label graph, DNAME
    cycles included, and no class it emits has a domain sequence longer
    than MAX_DNS_LENGTH = 20; an entry whose node is already in the
    branch history at the same path length is dropped without emitting
    or pushing anything, and so is an entry whose path is longer than
    the bound. *)
Theorem C7_ec_generation_terminates_within_bound (label_graph : LabelGraph) :
  (exists fuel ecs,
     generate_equivalence_classes fuel label_graph = Some ecs /\
     Forall (fun ec => List.length (domain_sequence ec) <= 20) ecs) /\
  (forall nodes_ children_map dname_map s rest ecs c,
     history s !! dfs_node s = Some (List.length (path s)) ->
     visit nodes_ children_map dname_map (mkTraversal (s :: rest) ecs c)
     = mkTraversal rest ecs c) /\
  (forall nodes_ children_map dname_map s rest ecs c,
     20 < List.length (path s) ->
     visit nodes_ children_map dname_map (mkTraversal (s :: rest) ecs c)
     = mkTraversal rest ecs c).
Proof.
  split; [|split].
  - destruct (generate_equivalence_classes_returns label_graph)
      as (fuel & ecs & Hgen & domains & Hbound & Hshape).
    exists fuel, ecs. split; [assumption|].
    apply Forall_forall. intros ec Hec. apply list_elem_of_In in Hec.
    apply (in_map shape) in Hec. rewrite Hshape in Hec.
    apply cross_product_domains in Hec.
    rewrite Forall_forall in Hbound. apply (Hbound _ (proj2 (list_elem_of_In _ _) Hec)).
  - intros nodes_ children_map dname_map s rest ecs c Hh.
    apply visit_revisited. unfold revisited. apply bool_decide_eq_true. assumption.
  - intros nodes_ children_map dname_map s rest ecs c Hlen.
    apply visit_too_long. exact Hlen.
Qed.

Lemma C7_ec_generation_terminates_within_bound_witness :
  (exists fuel ecs,
     generate_equivalence_classes fuel dname_cycle_graph = Some ecs /\
     Forall (fun ec => List.length (domain_sequence ec) <= 20) ecs) /\
  visit (lg_nodes dname_cycle_graph) ∅ ∅
        (mkTraversal [mkDfs "n2" [Label "."; Label "com"; Label "b"] {["n2" := 3]}] [] 0)
  = mkTraversal [] [] 0 /\
  visit (lg_nodes dname_cycle_graph) ∅ ∅
        (mkTraversal [mkDfs "n2" (List.repeat (Label "x") 21) ∅] [] 0)
  = mkTraversal [] [] 0.
Proof.
  split; [exact (proj1 (C7_ec_generation_terminates_within_bound dname_cycle_graph))|].
  split.
  - apply (proj1 (proj2 (C7_ec_generation_terminates_within_bound dname_cycle_graph))).
    vm_compute. reflexivity.
  - apply (proj2 (proj2 (C7_ec_generation_terminates_within_bound dname_cycle_graph))).
    vm_compute. lia.
Defined.

End ec_theorems.
(** ** Delegation consistency *)

Section checker_properties.

Import AutoGen.





End checker_properties.
(** ** Input parsing *)

Section parsing_properties.

Import Groot_v1.

Variable disk : gmap string string.
Variable zone_records : string -> list ResourceRecord.
Variable dataset_path : string.

Local Abbreviation register_ := (register_zone disk zone_records dataset_path).

Lemma parse_missing_file file_path :
  disk !! file_path = None ->
  parse_zone_file disk zone_records file_path
  = ([], ["Warning: Zone file not found: " ++ file_path]).
Proof. intros Hnone. unfold parse_zone_file. rewrite Hnone. reflexivity. Qed.

(** What one iteration does to the zone map and to the output. *)
Lemma register_zone_usable st zi :
  usable zi ->
  domain_to_zone_ (register_ st zi) =
    <[declared_origin zi :=
        mkZone (declared_origin zi)
               (fst (parse_zone_file disk zone_records
                       (path_join dataset_path (declared_file zi))))]>
      (domain_to_zone_ st) /\
  printed (register_ st zi) =
    (printed st ++ snd (parse_zone_file disk zone_records
                          (path_join dataset_path (declared_file zi))))%list.
Proof.
  intros [Ho Hf]. unfold register_zone.
  fold (declared_origin zi). fold (declared_file zi).
  apply String.eqb_neq in Ho, Hf. rewrite Ho, Hf. simpl.
  destruct (parse_zone_file _ _ _) as [parsed out].
  destruct (foldl _ _ _) as [s g]. split; reflexivity.
Qed.

Lemma register_zone_skipped st zi : ~ usable zi -> register_ st zi = st.
Proof.
  intros Hnot. unfold register_zone.
  fold (declared_origin zi). fold (declared_file zi).
  destruct (String.eqb_spec (declared_origin zi) ""); [reflexivity|].
  destruct (String.eqb_spec (declared_file zi) ""); [reflexivity|].
  exfalso. apply Hnot. split; assumption.
Qed.

Lemma usable_dec zi : usable zi \/ ~ usable zi.
Proof.
  unfold usable.
  destruct (decide (declared_origin zi = "")), (decide (declared_file zi = ""));
    tauto.
Qed.

(** Later entries with another origin leave a registered zone alone. *)
Lemma registered_stays l : forall st z_name,
  Forall (fun zi => declared_origin zi <> z_name) l ->
  domain_to_zone_ (foldl register_ st l) !! z_name = domain_to_zone_ st !! z_name.
Proof.
  induction l as [|zi l IH]; intros st z_name Hl; simpl; [reflexivity|].
  apply Forall_cons in Hl as [Hzi Hl]. rewrite IH by assumption.
  destruct (usable_dec zi) as [Hu|Hu].
  - rewrite (proj1 (register_zone_usable st zi Hu)).
    apply lookup_insert_ne. assumption.
  - rewrite register_zone_skipped by assumption. reflexivity.
Qed.

(** Every usable entry of the list ends up registered under its origin. *)
Lemma every_entry_registered l : forall st zi,
  In zi l -> usable zi ->
  exists zone, domain_to_zone_ (foldl register_ st l) !! declared_origin zi = Some zone
               /\ origin zone = declared_origin zi.
Proof.
  induction l as [|zi' l IH] using rev_ind; intros st zi Hin Hu; [destruct Hin|].
  rewrite foldl_app. simpl.
  destruct (usable_dec zi') as [Hu'|Hu'].
  - rewrite (proj1 (register_zone_usable _ zi' Hu')).
    destruct (decide (declared_origin zi' = declared_origin zi)) as [He|He].
    + rewrite He, lookup_insert_eq. eexists. split; [reflexivity|]. reflexivity.
    + rewrite lookup_insert_ne by assumption.
      apply in_app_or in Hin as [Hin|[->|[]]]; [apply IH; assumption | congruence].
  - rewrite register_zone_skipped by assumption.
    apply in_app_or in Hin as [Hin|[->|[]]]; [apply IH; assumption | contradiction].
Qed.

Lemma printed_grows l : forall st x,
  In x (printed st) -> In x (printed (foldl register_ st l)).
Proof.
  induction l as [|zi l IH]; intros st x Hx; simpl; [assumption|].
  apply IH. destruct (usable_dec zi) as [Hu|Hu].
  - rewrite (proj2 (register_zone_usable st zi Hu)). apply in_or_app. auto.
  - rewrite register_zone_skipped by assumption. assumption.
Qed.

(** C9: when the file of a usable [ZoneFiles] entry is not on disk,
    parsing it prints the warning and yields no records; the entry is
    nevertheless registered, under its declared origin, as a zone with an
    empty record list, which is what the returned zone map holds for that
    origin when no later entry declares it again; and the loop goes on:
    every usable entry of the metadata is registered under its origin in
    the zone map that is returned. *)
Theorem C9_missing_zone_file_is_empty_zone
    (meta : Metadata) (before after : list zone_info) (zi : zone_info) :
  get_key (zones meta) (ZoneFiles meta) [] = (before ++ zi :: after)%list ->
  usable zi ->
  disk !! path_join dataset_path (declared_file zi) = None ->
  Forall (fun zi' => declared_origin zi' <> declared_origin zi) after ->
  parse_zone_file disk zone_records (path_join dataset_path (declared_file zi))
  = ([], ["Warning: Zone file not found: " ++ path_join dataset_path (declared_file zi)]) /\
  (forall st, domain_to_zone_ (register_zone disk zone_records dataset_path st zi)
              !! declared_origin zi = Some (mkZone (declared_origin zi) [])) /\
  exists config domain_to_zone out,
    input_parsing_and_configuration_initialization disk zone_records dataset_path
      (Decoded meta) = (config, domain_to_zone, out) /\
    domain_to_zone !! declared_origin zi = Some (mkZone (declared_origin zi) []) /\
    In ("Warning: Zone file not found: " ++ path_join dataset_path (declared_file zi)) out /\
    forall zi', In zi' (before ++ zi :: after) -> usable zi' ->
      exists zone, domain_to_zone !! declared_origin zi' = Some zone /\
                   origin zone = declared_origin zi'.
Proof.
  intros Hlist Hu Hmissing Hafter.
  pose proof (parse_missing_file _ Hmissing) as Hparse.
  split; [exact Hparse|].
  split.
  { intros st. rewrite (proj1 (register_zone_usable st zi Hu)), Hparse.
    apply lookup_insert_eq. }
  unfold input_parsing_and_configuration_initialization. rewrite Hlist.
  eexists _, _, _. split; [reflexivity|].
  set (init := mkInit _ _ _ _).
  split; [|split].
  - rewrite foldl_app. simpl. rewrite registered_stays by assumption.
    rewrite (proj1 (register_zone_usable _ zi Hu)), Hparse. apply lookup_insert_eq.
  - rewrite foldl_app. simpl. apply printed_grows.
    rewrite (proj2 (register_zone_usable _ zi Hu)), Hparse.
    apply in_or_app. right. left. reflexivity.
  - intros zi' Hin Hu'. apply every_entry_registered; assumption.
Qed.

End parsing_properties.

Section parsing_witness.

Import Groot_v1.

Lemma C9_missing_zone_file_is_empty_zone_witness :
  usable missing_entry /\
  sample_disk !! path_join "data/zone_files" (declared_file missing_entry) = None /\
  exists config domain_to_zone out,
    input_parsing_and_configuration_initialization sample_disk
      (fun _ => [mkRR "sub.example." "A" 3600 "1.2.3.4" "IN"])
      "data/zone_files" (Decoded sample_metadata) = (config, domain_to_zone, out) /\
    domain_to_zone !! declared_origin missing_entry
      = Some (mkZone (declared_origin missing_entry) []) /\
    In ("Warning: Zone file not found: "
        ++ path_join "data/zone_files" (declared_file missing_entry)) out /\
    forall zi', In zi' ([] ++ missing_entry :: [present_entry]) -> usable zi' ->
      exists zone, domain_to_zone !! declared_origin zi' = Some zone /\
                   origin zone = declared_origin zi'.
Proof.
  assert (H1 : get_key (zones sample_metadata) (ZoneFiles sample_metadata) []
               = ([] ++ missing_entry :: [present_entry])%list) by reflexivity.
  assert (H2 : usable missing_entry) by (split; vm_compute; discriminate).
  assert (H3 : sample_disk !! path_join "data/zone_files" (declared_file missing_entry)
               = None) by (vm_compute; reflexivity).
  assert (H4 : Forall (fun zi' => declared_origin zi' <> declared_origin missing_entry)
                      [present_entry])
    by (constructor; [vm_compute; discriminate | constructor]).
  split; [exact H2|]. split; [exact H3|].
  exact (proj2 (proj2 (C9_missing_zone_file_is_empty_zone sample_disk
                  (fun _ => [mkRR "sub.example." "A" 3600 "1.2.3.4" "IN"])
                  "data/zone_files" sample_metadata [] [present_entry] missing_entry
                  H1 H2 H3 H4))).
Defined.

End parsing_witness.
(** * Further properties *)

(** ** Names are read up to a trailing dot *)

Section trailing_dot.

Import Groot_v1.

Lemma string_length_append (a b : string) :
  String.length (a ++ b) = String.length a + String.length b.
Proof. induction a as [|c a IH]; simpl; [reflexivity | rewrite IH; reflexivity]. Qed.

Lemma substring_after (a b : string) :
  substring (String.length a) (String.length b) (a ++ b) = b.
Proof.
  induction a as [|c a IH]; simpl; [|exact IH].
  induction b as [|c b IHb]; simpl; [reflexivity|].
  destruct b; simpl in *; congruence.
Qed.

Lemma endswith_append (a b : string) : Py.endswith (a ++ b) b = true.
Proof.
  unfold Py.endswith. rewrite string_length_append.
  replace (String.length a + String.length b - String.length b) with (String.length a) by lia.
  rewrite substring_after, String.eqb_refl, andb_true_r.
  apply Nat.leb_le. lia.
Qed.

Lemma norm_endswith x : Py.endswith (norm x) "." = true.
Proof.
  unfold norm. destruct (Py.endswith x ".") eqn:He; [exact He | apply endswith_append].
Qed.

Lemma norm_idempotent x : norm (norm x) = norm x.
Proof. unfold norm at 1. rewrite norm_endswith. reflexivity. Qed.

(** A query name, and the origin of the zone, mean the same with and
    without their final dot: neither the zone selected for a server nor
    the outcome groups of the lookup change when the dot is added. *)
Theorem trailing_dot_is_immaterial
    (dns_config : DNSConfigurationObject string) (domain_to_zone : gmap string Zone)
    (server_ : string) (zone : Zone) (query_ : string) (ts : list string) :
  find_authoritative_zone server_ (norm query_) dns_config domain_to_zone
    = find_authoritative_zone server_ query_ dns_config domain_to_zone /\
  symbolic_server_lookup (mkZone (norm (origin zone)) (records zone)) (norm query_) ts
    = symbolic_server_lookup zone query_ ts.
Proof.
  split.
  - unfold find_authoritative_zone. rewrite norm_idempotent. reflexivity.
  - unfold symbolic_server_lookup, build_records_map. simpl.
    rewrite !norm_idempotent. reflexivity.
Qed.

End trailing_dot.

(** ** The groups of a lookup *)

Section outcome_groups.

Import Groot_v1.

Lemma filter_none {A} (p : A -> bool) l :
  (forall x, In x l -> p x = false) -> List.filter p l = [].
Proof.
  induction l as [|x l IH]; intros Hp; simpl; [reflexivity|].
  rewrite (Hp x) by (left; reflexivity). apply IH. intros y Hy. apply Hp. right. assumption.
Qed.

Variable f : string -> outcome_key * list ResourceRecord.

Local Abbreviation fold_ :=
  (foldl (fun outcomes t => let '(key, used) := f t in
                            outcomes_add outcomes key t used) []).

Lemma outcomes_add_keys outs key t used :
  List.map fst (outcomes_add outs key t used) =
  if bool_decide (key ∈ List.map fst outs) then List.map fst outs
  else (List.map fst outs ++ [key])%list.
Proof.
  induction outs as [|[k d] rest IH]; simpl; [reflexivity|].
  destruct (decide (k = key)) as [Hk|Hk].
  - rewrite (bool_decide_eq_true_2 _ Hk). subst k. simpl.
    rewrite bool_decide_eq_true_2 by (apply list_elem_of_here). reflexivity.
  - rewrite (bool_decide_eq_false_2 _ Hk). simpl. rewrite IH. destruct (bool_decide (key ∈ List.map fst rest)) eqn:Hin.
    + apply bool_decide_eq_true in Hin.
      rewrite bool_decide_eq_true_2 by (apply list_elem_of_further; assumption). reflexivity.
    + apply bool_decide_eq_false in Hin.
      rewrite bool_decide_eq_false_2; [reflexivity|].
      intros Hc. apply elem_of_cons in Hc as [?|?]; congruence.
Qed.

Lemma outcomes_add_NoDup outs key t used :
  List.NoDup (List.map fst outs) ->
  List.NoDup (List.map fst (outcomes_add outs key t used)).
Proof.
  intros Hnd. rewrite outcomes_add_keys. case_bool_decide as Hin; [assumption|].
  apply NoDup_ListNoDup, NoDup_app. apply NoDup_ListNoDup in Hnd.
  split; [assumption|]. split; [|apply NoDup_singleton].
  intros x Hx Hx'. apply list_elem_of_singleton in Hx'. subst x.
  apply Hin. assumption.
Qed.

(** What an entry of the dict holds after one more type. *)
Lemma outcomes_add_entry outs key t used k d :
  List.NoDup (List.map fst outs) ->
  In (k, d) (outcomes_add outs key t used) ->
  (k <> key /\ In (k, d) outs) \/
  (k = key /\ exists d0, In (key, d0) outs /\
                         data_types d = (data_types d0 ++ [t])%list /\
                         data_records d = (data_records d0 ++ used)%list) \/
  (k = key /\ ~ In key (List.map fst outs) /\ data_types d = [t] /\ data_records d = used).
Proof.
  induction outs as [|[k0 d0] rest IH]; simpl; intros Hnd Hin.
  - destruct Hin as [[= <- <-]|[]]. right. right. auto.
  - apply List.NoDup_cons_iff in Hnd as [Hk0 Hnd].
    case_bool_decide as Hk; simpl in Hin.
    + subst k0. destruct Hin as [[= <- <-]|Hin].
      * right. left. split; [reflexivity|]. exists d0. simpl. auto.
      * left. split; [|auto]. intros ->. apply Hk0.
        apply (in_map fst) in Hin. exact Hin.
    + destruct Hin as [[= <- <-]|Hin]; [left; auto|].
      destruct (IH Hnd Hin)
        as [[Hne Hin']|[(-> & d1 & Hin' & Hd)|(-> & Hnot & Hd)]].
      * left. auto.
      * right. left. split; [reflexivity|]. exists d1. auto.
      * right. right. split; [reflexivity|]. split; [|assumption].
        intros [?|?]; [congruence | contradiction].
Qed.

(** The dict built for the types [ts]: one entry per distinct key, holding
    the types with that key in the order they were asked, and the records
    used for them. *)
Lemma outcomes_fold_inv ts :
  List.NoDup (List.map fst (fold_ ts)) /\
  (forall t, In t ts -> In (fst (f t)) (List.map fst (fold_ ts))) /\
  (forall k d, In (k, d) (fold_ ts) ->
     data_types d = List.filter (fun t => bool_decide (fst (f t) = k)) ts /\
     data_types d <> [] /\
     data_records d =
       List.concat (List.map (fun t => snd (f t))
                      (List.filter (fun t => bool_decide (fst (f t) = k)) ts))).
Proof.
  induction ts as [|t ts (Hnd & Hkeys & Hentries)] using rev_ind.
  - simpl. split; [constructor|]. split; [intros t []|intros k d []].
  - rewrite foldl_app. simpl. destruct (f t) as [key used] eqn:Hf.
    split; [apply outcomes_add_NoDup; assumption|]. split.
    + intros t' Ht'. rewrite outcomes_add_keys.
      apply in_app_or in Ht' as [Ht'|[<-|[]]].
      * specialize (Hkeys _ Ht').
        case_bool_decide; [assumption | apply in_or_app; auto].
      * rewrite Hf. simpl.
        case_bool_decide as Hin;
          [apply list_elem_of_In; assumption | apply in_or_app; right; left; reflexivity].
    + intros k d Hin. rewrite List.filter_app. simpl. rewrite Hf. simpl.
      apply outcomes_add_entry in Hin; [|assumption].
      destruct Hin as [[Hne Hin]|[(-> & d0 & Hin & Hd & Hr)|(-> & Hnot & Hd & Hr)]].
      * destruct (Hentries _ _ Hin) as (Hty & Hne' & Hrec).
        rewrite bool_decide_eq_false_2 by congruence.
        rewrite app_nil_r. auto.
      * destruct (Hentries _ _ Hin) as (Hty & _ & Hrec).
        rewrite bool_decide_eq_true_2 by reflexivity.
        rewrite Hd, Hr, Hty, Hrec. split; [reflexivity|]. split.
        -- intros Habs. apply app_eq_nil in Habs as [_ Habs]. discriminate.
        -- rewrite List.map_app, concat_app. simpl. rewrite Hf. simpl.
           rewrite app_nil_r. reflexivity.
      * rewrite bool_decide_eq_true_2 by reflexivity.
        rewrite Hd, Hr. rewrite filter_none.
        -- simpl. rewrite Hf. simpl. rewrite app_nil_r.
           split; [reflexivity|]. split; [discriminate | reflexivity].
        -- intros t' Ht'. apply bool_decide_eq_false_2. intros Hk.
           apply Hnot. rewrite <- Hk. apply Hkeys. assumption.
Qed.

End outcome_groups.

Section lookup_group_theorems.

Import Groot_v1.

Lemma NoDup_keys_functional {A B} (l : list (A * B)) k d d' :
  List.NoDup (List.map fst l) -> In (k, d) l -> In (k, d') l -> d = d'.
Proof.
  induction l as [|[k0 d0] l IH]; simpl; intros Hnd Hin Hin'; [destruct Hin|].
  apply List.NoDup_cons_iff in Hnd as [Hk0 Hnd].
  destruct Hin as [Heq|Hin], Hin' as [Heq'|Hin'].
  - congruence.
  - injection Heq as -> ->. exfalso. apply Hk0.
    apply (in_map fst) in Hin'. exact Hin'.
  - injection Heq' as -> ->. exfalso. apply Hk0.
    apply (in_map fst) in Hin. exact Hin.
  - apply IH; assumption.
Qed.

(** The keys the lookup computes have one of four forms. *)
Lemma outcome_key_shape records_map ce q_norm t :
  let k := fst (outcome_for records_map ce q_norm t) in
  (exists l, k = mkKey "REF" l "") \/ (exists nq, k = mkKey "ANSQ" [] nq) \/
  k = mkKey "ANS" [] "" \/ k = mkKey "NX" [] "".
Proof.
  assert (Hauth : forall rrset,
    let k := fst (authoritative_data rrset t) in
    (exists l, k = mkKey "REF" l "") \/ (exists nq, k = mkKey "ANSQ" [] nq) \/
    k = mkKey "ANS" [] "" \/ k = mkKey "NX" [] "").
  { intros rrset. unfold authoritative_data.
    destruct (_ && _); [right; left; eexists; reflexivity|].
    destruct (has_type rrset t); right; right; left; reflexivity. }
  unfold outcome_for. cbv zeta.
  destruct (String.eqb ce q_norm).
  - destruct (_ && _); [left; eexists; reflexivity | apply Hauth].
  - destruct (has_type _ "DNAME"); [right; left; eexists; reflexivity|].
    destruct (_ && _); [left; eexists; reflexivity|].
    destruct (records_map !! _); [apply Hauth | right; right; right; reflexivity].
Qed.

(** The key decides the answer, and for keys of these forms the answer
    decides the key. *)
Lemma answer_of_key_inj k k' d d' :
  ((exists l, k = mkKey "REF" l "") \/ (exists nq, k = mkKey "ANSQ" [] nq) \/
   k = mkKey "ANS" [] "" \/ k = mkKey "NX" [] "") ->
  ((exists l, k' = mkKey "REF" l "") \/ (exists nq, k' = mkKey "ANSQ" [] nq) \/
   k' = mkKey "ANS" [] "" \/ k' = mkKey "NX" [] "") ->
  answer (make_result (k, d)) = answer (make_result (k', d')) -> k = k'.
Proof.
  intros [[l ->]|[[nq ->]|[->| ->]]] [[l' ->]|[[nq' ->]|[->| ->]]]; simpl;
    intros [=]; congruence.
Qed.

Local Abbreviation outcomes_ zone query_ ts :=
  (foldl (fun outcomes t =>
            let '(key, used_records) :=
              outcome_for (build_records_map zone)
                (closest_encloser (build_records_map zone) (norm (origin zone)) (norm query_))
                (norm query_) t in
            outcomes_add outcomes key t used_records) [] ts).

Lemma lookup_as_map zone query_ ts :
  symbolic_server_lookup zone query_ ts = List.map make_result (outcomes_ zone query_ ts).
Proof. reflexivity. Qed.

(** The groups a lookup returns carry pairwise different answers, none is
    without a type, and the answer type is one of REF, ANSQ, ANS and NX:
    the lookup itself never answers REFUSED. *)
Theorem lookup_groups_are_distinct (zone : Zone) (query_ : string) (ts : list string) :
  List.NoDup (List.map answer (symbolic_server_lookup zone query_ ts)) /\
  Forall (fun g => types g <> [] /\
                   In (answer_type (answer g)) ["REF"; "ANSQ"; "ANS"; "NX"])
         (symbolic_server_lookup zone query_ ts).
Proof.
  rewrite lookup_as_map.
  destruct (outcomes_fold_inv
              (outcome_for (build_records_map zone)
                 (closest_encloser (build_records_map zone) (norm (origin zone)) (norm query_))
                 (norm query_)) ts) as (Hnd & _ & Hentries).
  set (outs := outcomes_ zone query_ ts) in *.
  assert (Hshape : forall k d, In (k, d) outs ->
    (exists l, k = mkKey "REF" l "") \/ (exists nq, k = mkKey "ANSQ" [] nq) \/
    k = mkKey "ANS" [] "" \/ k = mkKey "NX" [] "").
  { intros k d Hin. destruct (Hentries k d Hin) as (Hty & Hne & _).
    destruct (data_types d) as [|t0 rest] eqn:Hd; [congruence|].
    assert (Ht0 : In t0 (t0 :: rest)) by (left; reflexivity).
    rewrite Hty in Ht0. apply filter_In in Ht0 as [_ Hk].
    apply bool_decide_eq_true in Hk. rewrite <- Hk. apply outcome_key_shape. }
  split.
  - rewrite List.map_map. apply NoDup_ListNoDup, NoDup_fmap_2_strong.
    + intros [k d] [k' d'] Hin Hin' Heq.
      apply list_elem_of_In in Hin, Hin'.
      assert (k = k') as <- by (eapply answer_of_key_inj; eauto).
      f_equal. eapply NoDup_keys_functional; eassumption.
    + apply (NoDup_fmap_1 fst). apply NoDup_ListNoDup. exact Hnd.
  - apply Forall_fmap, Forall_forall. intros [k d] Hin. apply list_elem_of_In in Hin.
    destruct (Hentries k d Hin) as (_ & Hne & _). simpl. split; [exact Hne|].
    destruct (Hshape k d Hin) as [[l ->]|[[nq ->]|[->| ->]]]; simpl; auto.
Qed.

(** The key of a type other than CNAME does not depend on the type. *)
Lemma outcome_key_non_cname records_map ce q_norm t1 t2 :
  t1 <> "CNAME" -> t2 <> "CNAME" ->
  fst (outcome_for records_map ce q_norm t1) = fst (outcome_for records_map ce q_norm t2).
Proof.
  intros H1 H2. apply String.eqb_neq in H1, H2.
  assert (Hauth : forall rrset,
    fst (authoritative_data rrset t1) = fst (authoritative_data rrset t2)).
  { intros rrset. unfold authoritative_data. rewrite H1, H2.
    destruct (has_type rrset "CNAME"); simpl; [reflexivity|].
    destruct (has_type rrset t1), (has_type rrset t2); reflexivity. }
  unfold outcome_for. cbv zeta.
  destruct (String.eqb ce q_norm).
  - destruct (_ && _); [reflexivity | apply Hauth].
  - destruct (has_type _ "DNAME"); [reflexivity|].
    destruct (_ && _); [reflexivity|].
    destruct (records_map !! _); [apply Hauth | reflexivity].
Qed.

Lemma two_values_length {A} (l : list A) a b :
  List.NoDup l -> (forall x, In x l -> x = a \/ x = b) -> List.length l <= 2.
Proof.
  intros Hnd Hab. change 2 with (List.length [a; b]).
  apply NoDup_incl_length; [assumption|].
  intros x Hx. destruct (Hab x Hx) as [->| ->]; simpl; auto.
Qed.

(** Types are split by the lookup only between CNAME and the rest: two
    queried types other than CNAME always lie in the same outcome group,
    so a lookup returns at most two groups. *)
Theorem lookup_splits_on_cname_only
    (zone : Zone) (query_ : string) (ts : list string) (t1 t2 : string) (g : OutcomeGroup) :
  In t1 ts -> In t2 ts -> t1 <> "CNAME" -> t2 <> "CNAME" ->
  In g (symbolic_server_lookup zone query_ ts) ->
  (In t1 (types g) <-> In t2 (types g)) /\
  List.length (symbolic_server_lookup zone query_ ts) <= 2.
Proof.
  intros Ht1 Ht2 Hc1 Hc2 Hg. rewrite lookup_as_map in *.
  set (f := outcome_for (build_records_map zone)
              (closest_encloser (build_records_map zone) (norm (origin zone)) (norm query_))
              (norm query_)).
  destruct (outcomes_fold_inv f ts) as (Hnd & _ & Hentries).
  fold f in Hg. set (outs := foldl _ [] ts) in *.
  split.
  - apply in_map_iff in Hg as ([k d] & <- & Hin). simpl.
    destruct (Hentries k d Hin) as (-> & _ & _).
    rewrite !filter_In, !bool_decide_eq_true.
    unfold f. rewrite (outcome_key_non_cname _ _ _ t1 t2 Hc1 Hc2). tauto.
  - rewrite length_map, <- (length_map fst).
    apply (two_values_length _ (fst (f "CNAME")) (fst (f t1))); [assumption|].
    intros k Hk. apply in_map_iff in Hk as ([k' d] & <- & Hin). simpl.
    destruct (Hentries k' d Hin) as (Hty & Hne & _).
    destruct (data_types d) as [|t0 rest] eqn:Hd; [congruence|].
    assert (Ht0 : In t0 (t0 :: rest)) by (left; reflexivity).
    rewrite Hty in Ht0. apply filter_In in Ht0 as [_ Hk].
    apply bool_decide_eq_true in Hk. rewrite <- Hk.
    destruct (String.eqb_spec t0 "CNAME") as [->|Hne0]; [left; reflexivity|].
    right. apply outcome_key_non_cname; assumption.
Qed.

Lemma lookup_splits_on_cname_only_witness :
  In "A" ["A"; "CNAME"; "MX"] /\ In "MX" ["A"; "CNAME"; "MX"] /\
  exists g,
    In g (symbolic_server_lookup cname_with_data_zone "a.example." ["A"; "CNAME"; "MX"]) /\
    (In "A" (types g) <-> In "MX" (types g)) /\
    List.length (symbolic_server_lookup cname_with_data_zone "a.example."
                   ["A"; "CNAME"; "MX"]) <= 2.
Proof.
  split; [left; reflexivity|]. split; [right; right; left; reflexivity|].
  eexists. split; [left; reflexivity|].
  apply (lookup_splits_on_cname_only cname_with_data_zone "a.example."
           ["A"; "CNAME"; "MX"] "A" "MX").
  - left; reflexivity.
  - right; right; left; reflexivity.
  - discriminate.
  - discriminate.
  - left; reflexivity.
Defined.

(** NXDOMAIN is answered only for a name that owns nothing: when a group
    of the lookup has the answer type NX, the zone holds no record at the
    query name and none at the wildcard below the closest encloser, the
    closest encloser owns no DNAME, and the group carries no record. *)
Theorem nxdomain_only_for_unowned_names
    (zone : Zone) (query_ : string) (ts : list string) (g : OutcomeGroup) :
  In g (symbolic_server_lookup zone query_ ts) ->
  answer_type (answer g) = "NX" ->
  (forall t, records_at zone (norm query_) t = []) /\
  (forall t, records_at zone
               ("*." ++ closest_encloser (build_records_map zone) (norm (origin zone))
                                         (norm query_)) t = []) /\
  records_at zone (closest_encloser (build_records_map zone) (norm (origin zone))
                                    (norm query_)) "DNAME" = [] /\
  group_records g = [].
Proof.
  intros Hg Htag. rewrite lookup_as_map in Hg.
  set (ce := closest_encloser _ _ _) in *.
  set (f := outcome_for (build_records_map zone) ce (norm query_)).
  destruct (outcomes_fold_inv f ts) as (_ & _ & Hentries).
  apply in_map_iff in Hg as ([k d] & <- & Hin). simpl in Htag. simpl.
  destruct (Hentries k d Hin) as (Hty & Hne & Hrec).
  destruct (data_types d) as [|t0 rest] eqn:Hd; [congruence|].
  assert (Ht0 : In t0 (t0 :: rest)) by (left; reflexivity).
  rewrite Hty in Ht0. apply filter_In in Ht0 as [_ Hk].
  apply bool_decide_eq_true in Hk.
  assert (Hnone : forall n, build_records_map zone !! n = None ->
                            forall t, records_at zone n t = []).
  { intros n Hn t. pose proof (records_map_lookup zone n t) as Hl.
    unfold lookup2 in Hl. rewrite Hn in Hl. simpl in Hl.
    destruct (records_at zone n t); [reflexivity | discriminate]. }
  assert (Hauth : forall rrset t, outcome_type (fst (authoritative_data rrset t)) <> "NX").
  { intros rrset t. unfold authoritative_data.
    destruct (_ && _); [discriminate|]. destruct (has_type rrset t); discriminate. }
  assert (Hcase : String.eqb ce (norm query_) = false /\
                  has_type (default ∅ (build_records_map zone !! ce)) "DNAME" = false /\
                  build_records_map zone !! ("*." ++ ce) = None).
  { subst k. unfold f, outcome_for in Htag. cbv zeta in Htag.
    destruct (String.eqb ce (norm query_)).
    - destruct (_ && _) in Htag; [discriminate | exfalso; eapply Hauth; eassumption].
    - destruct (has_type _ "DNAME"); [discriminate|].
      destruct (_ && _) in Htag; [discriminate|].
      destruct (build_records_map zone !! ("*." ++ ce));
        [exfalso; eapply Hauth; eassumption | auto]. }
  destruct Hcase as (Hanc & Hdname & Hwild).
  split; [|split; [|split]].
  - apply Hnone. unfold ce, closest_encloser in Hanc.
    destruct (bool_decide (is_Some (build_records_map zone !! norm query_))) eqn:Hq.
    + rewrite String.eqb_refl in Hanc. discriminate.
    + apply bool_decide_eq_false in Hq.
      destruct (build_records_map zone !! norm query_); [|reflexivity].
      exfalso. apply Hq. eexists. reflexivity.
  - apply Hnone. exact Hwild.
  - rewrite has_type_records_at in Hdname.
    apply negb_false_iff, bool_decide_eq_true in Hdname. exact Hdname.
  - rewrite Hrec. apply concat_nil_Forall, Forall_forall. intros l Hl.
    apply list_elem_of_In in Hl. apply in_map_iff in Hl as (t & <- & Ht). apply filter_In in Ht as [_ Ht].
    apply bool_decide_eq_true in Ht. unfold f, outcome_for. cbv zeta.
    rewrite Hanc, Hdname, Hwild.
    destruct (_ && _) eqn:Hdeleg; [|reflexivity].
    exfalso. unfold f, outcome_for in Ht. cbv zeta in Ht.
    rewrite Hanc, Hdname, Hdeleg in Ht. rewrite <- Ht in Htag. discriminate.
Qed.

Lemma nxdomain_only_for_unowned_names_witness :
  exists g,
    In g (symbolic_server_lookup apex_only_zone "x.example." ["A"]) /\
    answer_type (answer g) = "NX" /\
    (forall t, records_at apex_only_zone (norm "x.example.") t = []) /\
    group_records g = [].
Proof.
  eexists. split; [left; reflexivity|]. split; [reflexivity|].
  destruct (nxdomain_only_for_unowned_names apex_only_zone "x.example." ["A"] _
              (or_introl eq_refl) eq_refl) as (Hq & _ & _ & Hrec).
  split; [exact Hq | exact Hrec].
Defined.

(** *** Referrals *)

Lemma insert_sorted_perm x l : Permutation (Py.insert_sorted x l) (x :: l).
Proof.
  induction l as [|y l IH]; simpl; [reflexivity|].
  destruct (String.leb x y); [reflexivity|].
  rewrite IH. apply perm_swap.
Qed.

Lemma sorted_perm l : Permutation (Py.sorted l) l.
Proof.
  induction l as [|x l IH]; simpl; [reflexivity|].
  unfold Py.sorted in *. simpl. rewrite insert_sorted_perm, IH. reflexivity.
Qed.

Lemma insert_sorted_HdRel a x l :
  string_le a x -> HdRel string_le a l -> HdRel string_le a (Py.insert_sorted x l).
Proof.
  intros Hax Hal. destruct l as [|y l]; simpl; [constructor; assumption|].
  destruct (String.leb x y); constructor; [assumption|].
  inversion Hal; assumption.
Qed.

Lemma insert_sorted_Sorted x l :
  Sorted string_le l -> Sorted string_le (Py.insert_sorted x l).
Proof.
  induction l as [|y l IH]; simpl; intros Hs; [repeat constructor|].
  destruct (String.leb x y) eqn:Hxy.
  - constructor; [assumption | constructor; exact Hxy].
  - apply Sorted_inv in Hs as [Hs Hhd].
    constructor; [apply IH; assumption|].
    apply insert_sorted_HdRel; [|assumption].
    destruct (String.leb_total x y) as [H'|H']; [congruence | exact H'].
Qed.

Lemma sorted_Sorted l : Sorted string_le (Py.sorted l).
Proof.
  induction l as [|x l IH]; [constructor|].
  unfold Py.sorted in *. simpl. apply insert_sorted_Sorted. assumption.
Qed.

(** A referral names the servers of the delegation in sorted order: when a
    group has the answer type REF, the closest encloser owns NS records
    and no SOA, and the target servers of the group are the rdata of
    these NS records, sorted by code points. *)
Theorem referral_targets_are_sorted
    (zone : Zone) (query_ : string) (ts : list string) (g : OutcomeGroup) :
  In g (symbolic_server_lookup zone query_ ts) ->
  answer_type (answer g) = "REF" ->
  exists targets,
    target_servers (answer g) = Some targets /\
    Sorted string_le targets /\
    Permutation targets
      (List.map rdata
         (records_at zone (closest_encloser (build_records_map zone) (norm (origin zone))
                                            (norm query_)) "NS")) /\
    records_at zone (closest_encloser (build_records_map zone) (norm (origin zone))
                                      (norm query_)) "NS" <> [] /\
    records_at zone (closest_encloser (build_records_map zone) (norm (origin zone))
                                      (norm query_)) "SOA" = [].
Proof.
  intros Hg Htag. rewrite lookup_as_map in Hg.
  set (ce := closest_encloser _ _ _) in *.
  set (f := outcome_for (build_records_map zone) ce (norm query_)).
  destruct (outcomes_fold_inv f ts) as (_ & _ & Hentries).
  apply in_map_iff in Hg as ([k d] & <- & Hin). simpl in Htag. simpl.
  rewrite Htag. simpl.
  destruct (Hentries k d Hin) as (Hty & Hne & _).
  destruct (data_types d) as [|t0 rest] eqn:Hd; [congruence|].
  assert (Ht0 : In t0 (t0 :: rest)) by (left; reflexivity).
  rewrite Hty in Ht0. apply filter_In in Ht0 as [_ Hk].
  apply bool_decide_eq_true in Hk.
  assert (Hauth : forall rrset t, outcome_type (fst (authoritative_data rrset t)) <> "REF").
  { intros rrset t. unfold authoritative_data.
    destruct (_ && _); [discriminate|]. destruct (has_type rrset t); discriminate. }
  assert (Hcase :
    has_type (default ∅ (build_records_map zone !! ce)) "NS"
    && negb (has_type (default ∅ (build_records_map zone !! ce)) "SOA") = true /\
    k = fst (referral (default ∅ (build_records_map zone !! ce)))).
  { subst k. unfold f, outcome_for in Htag |- *. cbv zeta in Htag |- *.
    destruct (String.eqb ce (norm query_)).
    - destruct (_ && _); [auto | exfalso; eapply Hauth; eassumption].
    - destruct (has_type _ "DNAME"); [discriminate|].
      destruct (_ && _); [auto|].
      destruct (build_records_map zone !! ("*." ++ ce));
        [exfalso; eapply Hauth; eassumption | discriminate]. }
  destruct Hcase as (Hdeleg & ->).
  rewrite !has_type_records_at in Hdeleg.
  apply andb_true_iff in Hdeleg as [Hns Hsoa].
  apply negb_true_iff, bool_decide_eq_false in Hns.
  apply negb_true_iff, negb_false_iff, bool_decide_eq_true in Hsoa.
  unfold referral. simpl. rewrite rrs_records_at.
  eexists. split; [reflexivity|].
  split; [apply sorted_Sorted|]. split; [apply sorted_perm|]. auto.
Qed.

Lemma referral_targets_are_sorted_witness :
  exists g,
    In g (symbolic_server_lookup apex_only_zone "www.sub.example." ["A"]) /\
    answer_type (answer g) = "REF" /\
    target_servers (answer g) = Some ["ns1.sub.example."; "ns2.sub.example."] /\
    exists targets,
      target_servers (answer g) = Some targets /\ Sorted string_le targets.
Proof.
  eexists. split; [left; reflexivity|]. split; [reflexivity|].
  split; [vm_compute; reflexivity|].
  destruct (referral_targets_are_sorted apex_only_zone "www.sub.example." ["A"] _
              (or_introl eq_refl) eq_refl) as (targets & Ht & Hs & _).
  exists targets. split; assumption.
Defined.

End lookup_group_theorems.

(** ** Zone selection *)

Section zone_selection.

Import Groot_v1.

Lemma best_zone_step_inv domain_to_zone q_norm processed acc zone_name :
  best_so_far domain_to_zone q_norm processed acc ->
  best_so_far domain_to_zone q_norm (processed ++ [zone_name])
              (best_zone_step domain_to_zone q_norm acc zone_name).
Proof.
  intros [Hmax Hbest]. unfold best_zone_step.
  assert (Hkeep : forall acc', snd acc' = snd acc -> fst acc' = fst acc ->
    (is_match (norm zone_name) q_norm = true ->
     is_Some (zone_data domain_to_zone zone_name (norm zone_name)) ->
     (Z.of_nat (List.length (Py.labels_of (norm zone_name))) <= snd acc)%Z) ->
    best_so_far domain_to_zone q_norm (processed ++ [zone_name]) acc').
  { intros acc' Hs Hf Hnew. split.
    - intros other Hin Hm Hd. rewrite Hs.
      apply in_app_or in Hin as [Hin|[<-|[]]]; [apply Hmax; assumption | auto].
    - rewrite Hf, Hs. destruct (fst acc); [|assumption].
      destruct Hbest as (zn & Hin & Hrest). exists zn.
      split; [apply in_or_app; auto | assumption]. }
  destruct (is_match (norm zone_name) q_norm) eqn:Hm.
  2:{ apply Hkeep; [reflexivity | reflexivity | discriminate]. }
  destruct (zone_data domain_to_zone zone_name (norm zone_name)) as [z_obj|] eqn:Hz.
  2:{ apply Hkeep; [reflexivity | reflexivity |]. intros _ [? [=]]. }
  destruct (snd acc <? Z.of_nat (List.length (Py.labels_of (norm zone_name))))%Z eqn:Hlt.
  - apply Z.ltb_lt in Hlt. split; simpl.
    + intros other Hin Hm' Hd.
      apply in_app_or in Hin as [Hin|[<-|[]]]; [|lia].
      specialize (Hmax other Hin Hm' Hd). lia.
    + exists zone_name. split; [apply in_or_app; right; left; reflexivity | auto].
  - apply Z.ltb_ge in Hlt. apply Hkeep; [reflexivity | reflexivity | intros; lia].
Qed.

Lemma best_zone_fold_inv domain_to_zone q_norm served : forall processed acc,
  best_so_far domain_to_zone q_norm processed acc ->
  best_so_far domain_to_zone q_norm (processed ++ served)
              (foldl (best_zone_step domain_to_zone q_norm) acc served).
Proof.
  induction served as [|z served IH]; intros processed acc Hinv; simpl.
  - rewrite app_nil_r. assumption.
  - replace (processed ++ z :: served)%list with ((processed ++ [z]) ++ served)%list
      by (rewrite <- app_assoc; reflexivity).
    apply IH, best_zone_step_inv. assumption.
Qed.

(** The zone selected for a server and a query belongs to a zone name the
    server serves, whose name is a suffix of the query on a label boundary
    and whose data is in the zone map; and no other served zone name that
    matches and has data has more labels. *)
Theorem selected_zone_is_longest_match
    (dns_config : DNSConfigurationObject string) (domain_to_zone : gmap string Zone)
    (server_ query_ : string) (zone : Zone) :
  find_authoritative_zone server_ query_ dns_config domain_to_zone = Some zone ->
  exists served_zones zone_name,
    Gamma dns_config !! server_ = Some served_zones /\
    In zone_name served_zones /\
    is_match (norm zone_name) (norm query_) = true /\
    zone_data domain_to_zone zone_name (norm zone_name) = Some zone /\
    forall other,
      In other served_zones ->
      is_match (norm other) (norm query_) = true ->
      is_Some (zone_data domain_to_zone other (norm other)) ->
      List.length (Py.labels_of (norm other)) <= List.length (Py.labels_of (norm zone_name)).
Proof.
  unfold find_authoritative_zone.
  destruct (Gamma dns_config !! server_) as [served|]; [|discriminate].
  intros Hfind.
  destruct (best_zone_fold_inv domain_to_zone (norm query_) served [] (None, (-1)%Z))
    as [Hmax Hbest].
  { split; [intros other []|reflexivity]. }
  simpl in Hmax, Hbest. rewrite Hfind in Hbest.
  destruct Hbest as (zone_name & Hin & Hm & Hz & Hlen).
  exists served, zone_name. repeat (split; [assumption || reflexivity|]).
  intros other Hother Hm' Hd. specialize (Hmax other Hother Hm' Hd). lia.
Qed.

Lemma selected_zone_is_longest_match_witness :
  find_authoritative_zone "ns2." "a.sub.example." delegation_config delegation_zones
    = Some child_zone /\
  exists served_zones zone_name,
    Gamma delegation_config !! "ns2." = Some served_zones /\
    In zone_name served_zones /\
    is_match (norm zone_name) (norm "a.sub.example.") = true.
Proof.
  assert (Hfind : find_authoritative_zone "ns2." "a.sub.example." delegation_config
                    delegation_zones = Some child_zone) by (vm_compute; reflexivity).
  split; [exact Hfind|].
  destruct (selected_zone_is_longest_match _ _ _ _ _ Hfind)
    as (served & zone_name & Hg & Hin & Hm & _).
  exists served, zone_name. auto.
Defined.

End zone_selection.
(** ** Well-formed interpretation graphs *)

Section builder_invariant.

Import Groot_v1.

Variable dns_config : DNSConfigurationObject string.
Variable domain_to_zone : gmap string Zone.

Local Abbreviation step_ := (step dns_config domain_to_zone).

Lemma add_tag_fold l : forall acc t,
  In t (foldl add_tag acc l) <-> In t acc \/ In t l.
Proof.
  induction l as [|x l IH]; intros acc t; simpl; [tauto|].
  rewrite IH. unfold add_tag. destruct (Py.mem x acc) eqn:Hm.
  - apply mem_In in Hm. split; [tauto|]. intros [H'|[<-|H']]; auto.
  - rewrite in_app_iff. simpl. tauto.
Qed.

Lemma edge_ok_more nodes_ extra e : edge_ok nodes_ e -> edge_ok (nodes_ ++ extra) e.
Proof.
  intros (u & v & Hu & Hv & Hl). exists u, v.
  split; [apply lookup_app_l_Some; assumption|].
  split; [apply lookup_app_l_Some; assumption | assumption].
Qed.

Lemma item_ok_more nodes_ extra w : item_ok nodes_ w -> item_ok (nodes_ ++ extra) w.
Proof.
  destruct w as [[s [p|]] a]; simpl; [|trivial].
  intros (u & a' & Hu & Ha & Hl). exists u, a'.
  split; [apply lookup_app_l_Some; assumption | auto].
Qed.

(** The edge from the parent to the node of the state just taken. *)
Lemma parent_edge_ok nodes_ s parent_id edge_action target v :
  item_ok nodes_ (s, parent_id, edge_action) ->
  nodes_ !! target = Some v -> current_query v = query s ->
  Forall (edge_ok nodes_) (parent_edge parent_id target edge_action).
Proof.
  intros Hitem Hv Hq. destruct parent_id as [p|]; simpl; [|constructor].
  destruct Hitem as (u & a & Hu & -> & Hl).
  constructor; [|constructor]. exists u, v. simpl.
  assert (Ha : (if String.eqb a "" then "unknown" else a) = a).
  { destruct Hl as [(-> & _)|(-> & _)]; reflexivity. }
  rewrite Ha, Hq. auto.
Qed.

(** The states enqueued for the outcomes of a new node. *)
Lemma successors_ok nodes_ node outcomes :
  nodes_ !! node_id node = Some node ->
  (forall o, In o outcomes -> In (answer_type (answer o)) (tags node)) ->
  Forall (item_ok nodes_)
    (List.concat (List.map (successors (Theta dns_config) (node_id node)
                                       (current_query node)) outcomes)).
Proof.
  intros Hnode Htags. apply Forall_concat, Forall_fmap, Forall_forall.
  intros o Ho. apply list_elem_of_In in Ho. specialize (Htags o Ho).
  unfold compose, successors. cbv beta zeta.
  destruct (String.eqb_spec (answer_type (answer o)) "REF") as [Href|_].
  - apply Forall_fmap, Forall_forall. intros ns_ _. simpl.
    exists node, "referral". rewrite Href in Htags.
    split; [assumption|]. split; [reflexivity|]. left. auto.
  - destruct (String.eqb_spec (answer_type (answer o)) "ANSQ") as [Hansq|_]; [|constructor].
    apply Forall_fmap, Forall_forall. intros root _. simpl.
    exists node, "rewrite". rewrite Hansq in Htags.
    split; [assumption|]. split; [reflexivity|]. right. auto.
Qed.

Lemma step_ok b : builder_ok b -> builder_ok (step_ b).
Proof.
  intros (Hfresh & Hids & Hvis & Hnodes & Hedges & Hwork). unfold step.
  destruct (worklist b) as [|[[s parent_id] edge_action] rest] eqn:Hw.
  { repeat split; try assumption. rewrite Hw. constructor. }
  apply Forall_cons in Hwork as [Hitem Hrest].
  destruct (visited_states b !! state_key s) as [existing|] eqn:Hseen.
  - (* the state was resolved before: only an edge is added *)
    destruct (Hvis _ _ Hseen) as (v & Hv & Hkey).
    assert (Hq : current_query v = query s).
    { unfold node_key, state_key in Hkey. congruence. }
    repeat split; simpl; try assumption.
    apply Forall_app. split; [assumption|].
    apply Forall_forall. intros e He. apply list_elem_of_In, filter_In in He as [He _].
    pose proof (parent_edge_ok _ _ _ _ _ _ Hitem Hv Hq) as Hpe.
    rewrite Forall_forall in Hpe. apply Hpe, list_elem_of_In. assumption.
  - (* a new node *)
    set (nid := fresh b).
    assert (Hgrow : forall tags_ records_ answer_ worklist_,
      (let node := mkNode nid (server s) (query s) (state_types s) tags_ records_ answer_ in
       Forall (item_ok (graph_nodes b ++ [node])) worklist_) ->
      builder_ok
        (mkBuilder
           (graph_nodes b ++ [mkNode nid (server s) (query s) (state_types s)
                                     tags_ records_ answer_])
           (graph_edges b ++ parent_edge parent_id nid edge_action)
           (<[state_key s := nid]> (visited_states b)) worklist_ (S nid))).
    { intros tags_ records_ answer_ worklist_ Hwl.
      set (node := mkNode nid _ _ _ tags_ records_ answer_) in *.
      assert (Hlast : (graph_nodes b ++ [node])%list !! nid = Some node).
      { unfold nid. rewrite Hfresh. apply list_lookup_middle. reflexivity. }
      repeat split; simpl.
      + rewrite length_app. simpl. unfold nid. lia.
      + intros i n Hn. apply lookup_app_Some in Hn as [Hn|[Hlen Hn]]; [auto|].
        destruct (i - List.length (graph_nodes b)) as [|k] eqn:Hk; [|destruct k; discriminate].
        simpl in Hn. injection Hn as <-. simpl. unfold nid. lia.
      + intros key i Hi. apply lookup_insert_Some in Hi as [[<- <-]|[Hne Hi]].
        * exists node. split; [assumption | reflexivity].
        * destruct (Hvis _ _ Hi) as (n & Hn & Hk). exists n.
          split; [apply lookup_app_l_Some; assumption | assumption].
      + intros i n Hn. apply lookup_app_Some in Hn as [Hn|[Hlen Hn]].
        * specialize (Hnodes _ _ Hn).
          destruct (decide (state_key s = node_key n)) as [He|He];
            [congruence | rewrite lookup_insert_ne; assumption].
        * destruct (i - List.length (graph_nodes b)) as [|k] eqn:Hk;
            [|destruct k; discriminate].
          simpl in Hn. injection Hn as <-.
          replace i with nid by (unfold nid; lia). apply lookup_insert_eq.
      + apply Forall_app. split.
        * eapply Forall_impl; [exact Hedges|]. intros e. apply edge_ok_more.
        * eapply parent_edge_ok; [apply item_ok_more; exact Hitem | exact Hlast | reflexivity].
      + exact Hwl. }
    destruct (find_authoritative_zone _ _ _ _) as [zone|].
    + apply Hgrow. intros node. apply Forall_app. split.
      * eapply Forall_impl; [exact Hrest|]. intros w. apply item_ok_more.
      * apply (successors_ok _ node).
        -- subst node. simpl. unfold nid. rewrite Hfresh.
           apply list_lookup_middle. reflexivity.
        -- intros o Ho. subst node. simpl. apply add_tag_fold. right.
           apply in_map_iff. exists o. auto.
    + apply Hgrow. intros node.
      eapply Forall_impl; [exact Hrest|]. intros w. apply item_ok_more.
Qed.

Lemma while_worklist_ok fuel : forall b b',
  builder_ok b ->
  while_worklist fuel dns_config domain_to_zone b = Some b' -> builder_ok b'.
Proof.
  induction fuel as [|fuel IH]; intros b b' Hok; simpl.
  - destruct (worklist b); [|discriminate]. intros [= <-]. assumption.
  - destruct (worklist b).
    + intros [= <-]. assumption.
    + apply IH, step_ok. assumption.
Qed.

Lemma initial_builder_ok ec : builder_ok (initial_builder dns_config ec).
Proof.
  unfold initial_builder. repeat split; simpl.
  - intros i n Hn. rewrite lookup_nil in Hn. discriminate.
  - intros key i Hi. rewrite lookup_empty in Hi. discriminate.
  - intros i n Hn. rewrite lookup_nil in Hn. discriminate.
  - constructor.
  - apply Forall_fmap, Forall_forall. intros root _. reflexivity.
Qed.

Lemma builder_graph_ok b ec_id_ :
  builder_ok b -> graph_ok (mkGraph ec_id_ (graph_nodes b) (graph_edges b)).
Proof.
  intros (_ & Hids & _ & Hnodes & Hedges & _). unfold graph_ok. simpl.
  split; [|split; [|assumption]].
  - apply list_eq. intros i. rewrite list_lookup_fmap.
    destruct (graph_nodes b !! i) as [n|] eqn:Hn; simpl.
    + rewrite (Hids _ _ Hn). symmetry. apply lookup_seq.
      split; [reflexivity |]. apply lookup_lt_Some in Hn. assumption.
    + symmetry. apply lookup_seq_ge. apply lookup_ge_None in Hn. assumption.
  - apply NoDup_ListNoDup, NoDup_alt. intros i j key Hi Hj.
    rewrite list_lookup_fmap in Hi, Hj.
    destruct (graph_nodes b !! i) as [n|] eqn:Hn; [|discriminate].
    destruct (graph_nodes b !! j) as [m|] eqn:Hm; [|discriminate].
    simpl in Hi, Hj. injection Hi as Hi. injection Hj as Hj.
    pose proof (Hnodes _ _ Hn) as H1. pose proof (Hnodes _ _ Hm) as H2.
    rewrite Hi in H1. rewrite Hj in H2. congruence.
Qed.

End builder_invariant.

Section graph_theorems.

Import Groot_v1.

(** Whenever the builder finishes, it returns one graph per equivalence
    class, in order and under the id of its class, and each graph is well
    formed: its nodes are numbered in creation order, no two nodes stand
    for the same (server, query, type set) state, and every edge links two
    nodes of the graph and either is a referral, which leaves a node
    tagged REF and keeps the query name, or is a rewrite, which leaves a
    node tagged ANSQ. *)
Theorem interpretation_graphs_are_well_formed
    (fuel : nat) (equivalence_classes : list EquivalenceClass)
    (dns_config : DNSConfigurationObject string) (domain_to_zone : gmap string Zone)
    (graphs : list InterpretationGraph) :
  generate_interpretation_graphs fuel equivalence_classes dns_config domain_to_zone
    = Some graphs ->
  List.map graph_ec_id graphs = List.map ec_id equivalence_classes /\
  Forall graph_ok graphs.
Proof.
  revert graphs. induction equivalence_classes as [|ec ecs IH]; intros graphs; simpl.
  - intros [= <-]. split; [reflexivity | constructor].
  - unfold interpretation_graph.
    destruct (while_worklist fuel _ _ _) as [b|] eqn:Hb; [|discriminate].
    destruct (generate_interpretation_graphs fuel ecs _ _) as [gs|]; [|discriminate].
    intros [= <-]. destruct (IH gs eq_refl) as [Hids Hok]. simpl.
    split; [rewrite Hids; reflexivity|].
    constructor; [|assumption].
    apply builder_graph_ok.
    eapply while_worklist_ok; [apply initial_builder_ok | exact Hb].
Qed.

Lemma interpretation_graphs_are_well_formed_witness :
  exists graphs,
    generate_interpretation_graphs 5 [delegation_ec] delegation_config delegation_zones
      = Some graphs /\
    List.map graph_ec_id graphs = List.map ec_id [delegation_ec] /\
    Forall graph_ok graphs.
Proof.
  eexists. split; [vm_compute; reflexivity|].
  apply (interpretation_graphs_are_well_formed 5 [delegation_ec] delegation_config
           delegation_zones).
  vm_compute. reflexivity.
Defined.

End graph_theorems.
(** ** Names of the equivalence classes *)

Section ec_ids.

Import Groot_v1.

Lemma ec_name_inj n m : ec_name n = ec_name m -> n = m.
Proof.
  unfold ec_name. intros H. injection H as H. cbv [String.append] in H.
  apply Unsigned.to_uint_inj.
  pose proof (NilEmpty.usu (Nat.to_uint n)) as Hn.
  pose proof (NilEmpty.usu (Nat.to_uint m)) as Hm.
  rewrite H in Hn. congruence.
Qed.

Lemma emit_ids c d ts :
  List.map ec_id (emit c d ts) = List.map ec_name (seq (S c) (List.length ts)).
Proof.
  revert c. induction ts as [|t ts IH]; intros c; simpl; [reflexivity|].
  rewrite IH. reflexivity.
Qed.

Lemma emit_length c d ts : List.length (emit c d ts) = List.length ts.
Proof. revert c. induction ts as [|t ts IH]; intros c; simpl; [|rewrite IH]; reflexivity. Qed.

Lemma emit_domain c d ts : Forall (fun ec => domain_sequence ec = d) (emit c d ts).
Proof.
  revert c. induction ts as [|t ts IH]; intros c; simpl; constructor; [reflexivity | apply IH].
Qed.

Variable nodes_ : list (string * LabelGraphNode).
Variable children_map : gmap string (list string).
Variable dname_map : gmap string string.

Lemma pushed_paths nid p h s' :
  In s' (pushed nodes_ children_map dname_map nid p h) ->
  path s' = p \/ exists seg, path s' = (p ++ [seg])%list.
Proof. intros Hin. apply (pushed_spec nodes_ children_map dname_map) in Hin. tauto. Qed.

Lemma visit_ok r tr :
  traversal_ok r tr -> traversal_ok r (visit nodes_ children_map dname_map tr).
Proof.
  intros (Hc & Hids & Hends & Hstack). unfold visit.
  destruct (stack tr) as [|s rest] eqn:Hs.
  { repeat split; try assumption. rewrite Hs. constructor. }
  apply Forall_cons in Hstack as [(tail_ & Hpath) Hrest].
  destruct (revisited s); [repeat split; assumption|].
  destruct (MAX_DNS_LENGTH <? List.length (path s))%nat; [repeat split; assumption|].
  repeat split; cbn [ec_counter ec_list stack].
  - rewrite length_app, emit_length. lia.
  - rewrite List.map_app, emit_ids, Hids, length_app, emit_length, seq_app, List.map_app.
    rewrite Hc. reflexivity.
  - apply Forall_app. split; [assumption|].
    eapply Forall_impl; [apply emit_domain|]. intros ec ->.
    rewrite Hpath. simpl. rewrite List.map_app. simpl. split.
    + apply last_last.
    + intros Habs. apply app_eq_nil in Habs as [_ Habs]. discriminate.
  - apply Forall_app. split; [|assumption].
    apply Forall_forall. intros s' Hs'.
    apply list_elem_of_In, in_rev, pushed_paths in Hs'.
    rewrite Hpath in Hs'. destruct Hs' as [->|(seg & ->)]; eexists; reflexivity.
Qed.

Lemma while_stack_ok r fuel : forall tr tr',
  traversal_ok r tr ->
  while_stack fuel nodes_ children_map dname_map tr = Some tr' -> traversal_ok r tr'.
Proof.
  induction fuel as [|fuel IH]; intros tr tr' Hok; simpl.
  - destruct (stack tr); [|discriminate]. intros [= <-]. assumption.
  - destruct (stack tr).
    + intros [= <-]. assumption.
    + apply IH, visit_ok. assumption.
Qed.

End ec_ids.

Section ec_id_theorems.

Import Groot_v1.

(** The classes a traversal returns are named EC_1, EC_2, ... in the order
    they were emitted, so no two classes share an id; and, the node ids
    being distinct as the keys of a dict are, the domain sequence of every
    class is non-empty and ends in the label of the root node, which is a
    dot or the empty string. *)
Theorem equivalence_classes_are_numbered
    (fuel : nat) (label_graph : LabelGraph) (ecs : list EquivalenceClass) :
  List.NoDup (List.map fst (lg_nodes label_graph)) ->
  generate_equivalence_classes fuel label_graph = Some ecs ->
  List.map ec_id ecs = List.map ec_name (seq 1 (List.length ecs)) /\
  List.NoDup (List.map ec_id ecs) /\
  exists r, (r = "." \/ r = "") /\
    Forall (fun ec => List.last (domain_sequence ec) r = r /\ domain_sequence ec <> []) ecs.
Proof.
  intros Hkeys. unfold generate_equivalence_classes.
  destruct (edge_maps (lg_edges label_graph)) as [children_map dname_map].
  destruct (find_root (lg_nodes label_graph)) as [root|] eqn:Hroot.
  2:{ intros [= <-]. split; [reflexivity|]. split; [constructor|].
      exists ".". split; [auto | constructor]. }
  destruct (while_stack fuel _ _ _ _) as [tr|] eqn:Hrun; [|discriminate].
  intros [= <-].
  set (r := default "." (label <$> node_lookup (lg_nodes label_graph) root)) in *.
  assert (Hr : r = "." \/ r = "").
  { unfold r, find_root, node_lookup in *.
    destruct (List.find (fun kv => _ || _) _) as [kv|] eqn:Hf; [|discriminate].
    injection Hroot as <-.
    destruct (List.find (fun kv0 => String.eqb (fst kv0) (fst kv)) _) as [kv'|] eqn:Hf';
      [|left; reflexivity].
    simpl. apply find_some in Hf' as [Hin' Heq'], Hf as [Hin Hlabel].
    apply String.eqb_eq in Heq'.
    assert (snd kv' = snd kv) as ->.
    { apply (NoDup_keys_functional (lg_nodes label_graph) (fst kv)); [assumption| |].
      - rewrite <- Heq'. destruct kv'; assumption.
      - destruct kv; assumption. }
    apply orb_true_iff in Hlabel as [Hl|Hl]; apply String.eqb_eq in Hl; auto. }
  assert (Hinit : traversal_ok r (mkTraversal [mkDfs root [Label r] ∅] [] 0)).
  { repeat split; simpl; try constructor; [eexists; reflexivity | constructor]. }
  destruct (while_stack_ok _ _ _ r fuel _ _ Hinit Hrun) as (_ & Hids & Hends & _).
  split; [assumption|]. split; [|exists r; auto].
  rewrite Hids. apply NoDup_ListNoDup, NoDup_fmap_2; [intros n m; apply ec_name_inj|].
  apply NoDup_ListNoDup, seq_NoDup.
Qed.

Lemma equivalence_classes_are_numbered_witness :
  List.NoDup (List.map fst (lg_nodes dname_cycle_graph)) /\
  exists ecs,
    generate_equivalence_classes 20 dname_cycle_graph = Some ecs /\
    List.map ec_id ecs = List.map ec_name (seq 1 (List.length ecs)) /\
    List.NoDup (List.map ec_id ecs).
Proof.
  assert (Hnd : List.NoDup (List.map fst (lg_nodes dname_cycle_graph))).
  { simpl. repeat constructor; simpl; intuition discriminate. }
  split; [exact Hnd|].
  eexists. split; [vm_compute; reflexivity|].
  destruct (equivalence_classes_are_numbered 20 dname_cycle_graph _ Hnd
              ltac:(vm_compute; reflexivity)) as (Hids & Hnodup & _).
  split; [exact Hids | exact Hnodup].
Defined.

End ec_id_theorems.
(** ** The configuration built from the metadata *)

Section configuration_invariant.

Import Groot_v1.

Variable disk : gmap string string.
Variable zone_records : string -> list ResourceRecord.
Variable dataset_path : string.

Local Abbreviation register_ := (register_zone disk zone_records dataset_path).

Lemma register_server_fold zone_obj ns_list : forall s g,
  let '(s', g') := foldl (register_server zone_obj) (s, g) ns_list in
  s ⊆ s' /\
  (forall ns_id served, g' !! ns_id = Some served ->
     (ns_id ∈ s' /\ List.NoDup served /\ forall z, In z served -> z = zone_obj) \/
     (exists served0, g !! ns_id = Some served0 /\
        (served = served0 \/ (served = served0 ++ [zone_obj])%list /\ ~ In zone_obj served0))).
Proof.
  induction ns_list as [|n ns IH]; intros s g; simpl.
  - split; [reflexivity|]. intros ns_id served Hs. right. exists served. auto.
  - specialize (IH ({[n]} ∪ s)
                   (<[n := if bool_decide (zone_obj ∈ default [] (g !! n))
                           then default [] (g !! n)
                           else (default [] (g !! n) ++ [zone_obj])%list]> g)).
    destruct (foldl _ _ ns) as [s' g']. destruct IH as [Hsub Hg].
    split; [transitivity ({[n]} ∪ s); [apply union_subseteq_r | assumption]|].
    intros ns_id served Hs. destruct (Hg ns_id served Hs) as [Hl|(served0 & Hs0 & Hcase)];
      [left; assumption|].
    apply lookup_insert_Some in Hs0 as [[<- <-]|[Hne Hs0]].
    + destruct (g !! n) as [old|] eqn:Hold; simpl in *.
      * right. exists old. split; [reflexivity|].
        case_bool_decide as Hin.
        -- destruct Hcase as [->|[-> Hnot]]; [auto|].
           exfalso. apply Hnot, list_elem_of_In. assumption.
        -- destruct Hcase as [->|[-> Hnot]].
           ++ right. split; [reflexivity|]. intros Hc. apply Hin, list_elem_of_In. assumption.
           ++ exfalso. apply Hnot. apply in_or_app. right. left. reflexivity.
      * left. split; [apply Hsub, elem_of_union_l, elem_of_singleton; reflexivity|].
        destruct Hcase as [->|[-> Hnot]].
        -- split; [repeat constructor; simpl; tauto|]. intros z [<-|[]]. reflexivity.
        -- exfalso. apply Hnot. left. reflexivity.
    + right. exists served0. auto.
Qed.

Lemma register_zone_ok theta st zi :
  init_ok theta st -> init_ok theta (register_ st zi).
Proof.
  intros [Htheta Hgamma].
  assert (Hdec : usable zi \/ ~ usable zi).
  { unfold usable.
    destruct (decide (declared_origin zi = "")), (decide (declared_file zi = ""));
      tauto. }
  destruct Hdec as [Hu|Hu];
    [|rewrite register_zone_skipped by assumption; split; assumption].
  unfold register_zone. fold (declared_origin zi). fold (declared_file zi).
  destruct Hu as [Ho Hf]. pose proof Ho as Ho'. apply String.eqb_neq in Ho', Hf.
  rewrite Ho', Hf. simpl.
  destruct (parse_zone_file _ _ _) as [parsed out].
  match goal with |- context [foldl (register_server ?z) ?a ?l] =>
    pose proof (register_server_fold z l (s_set st) (gamma_dict st)) as Hfold;
    destruct (foldl (register_server z) a l) as [s' g'] end.
  destruct Hfold as [Hsub Hg]. split; simpl; [transitivity (s_set st); assumption|].
  intros ns_id served Hs.
  destruct (Hg ns_id served Hs) as [(Hin & Hnd & Hz)|(served0 & Hs0 & Hcase)].
  - split; [assumption|]. split; [assumption|].
    intros z Hzin. rewrite (Hz z Hzin). simpl. split; [assumption|].
    rewrite lookup_insert_eq. eexists. reflexivity.
  - destruct (Hgamma _ _ Hs0) as (Hin & Hnd & Hz).
    split; [apply Hsub; assumption|].
    assert (Hold : forall z, In z served0 ->
              origin z <> "" /\
              is_Some (<[declared_origin zi := mkZone (declared_origin zi) parsed]>
                         (domain_to_zone_ st) !! origin z)).
    { intros z Hzin. destruct (Hz z Hzin) as [Hne Hreg]. split; [assumption|].
      destruct (decide (declared_origin zi = origin z)) as [<-|Hd].
      - rewrite lookup_insert_eq. eexists. reflexivity.
      - rewrite lookup_insert_ne; assumption. }
    destruct Hcase as [->|[-> Hnot]]; [auto|].
    split.
    + apply NoDup_ListNoDup, NoDup_app. apply NoDup_ListNoDup in Hnd.
      split; [assumption|]. split; [|apply NoDup_singleton].
      intros x Hx Hx'. apply list_elem_of_singleton in Hx'. subst x.
      apply Hnot, list_elem_of_In. assumption.
    + intros z Hzin. apply in_app_or in Hzin as [Hzin|[<-|[]]]; [auto|].
      simpl. split; [assumption|]. rewrite lookup_insert_eq. eexists. reflexivity.
Qed.

Lemma register_all_ok theta l : forall st,
  init_ok theta st -> init_ok theta (foldl register_ st l).
Proof.
  induction l as [|zi l IH]; intros st Hok; simpl; [assumption|].
  apply IH, register_zone_ok. assumption.
Qed.

(** Entries the loop skips leave no trace. *)
Lemma skipped_entry_is_ignored before after zi st :
  ~ usable zi ->
  foldl register_ st (before ++ zi :: after) = foldl register_ st (before ++ after).
Proof.
  intros Hu. rewrite !foldl_app. simpl.
  rewrite register_zone_skipped by assumption. reflexivity.
Qed.

End configuration_invariant.

Section configuration_theorems.

Import Groot_v1.

(** The configuration returned for a decoded metadata file is consistent:
    every root server is a server of [S]; every server that hosts a zone is
    in [S], hosts no zone object twice, and each zone it hosts has a
    non-empty origin that is registered in the zone map; [S] and [Theta]
    list no server twice; and [Omega] maps exactly the servers of [S], each
    to itself. *)
Theorem configuration_is_consistent
    (disk : gmap string string) (zone_records : string -> list ResourceRecord)
    (dataset_path : string) (meta : Metadata)
    (config : DNSConfigurationObject Zone) (domain_to_zone : gmap string Zone)
    (out : list string) :
  input_parsing_and_configuration_initialization disk zone_records dataset_path
    (Decoded meta) = (config, domain_to_zone, out) ->
  (forall root, In root (Theta config) -> In root (S_ config)) /\
  (forall ns_id served,
     Gamma config !! ns_id = Some served ->
     In ns_id (S_ config) /\ List.NoDup served /\
     forall z, In z served -> origin z <> "" /\ is_Some (domain_to_zone !! origin z)) /\
  List.NoDup (S_ config) /\ List.NoDup (Theta config) /\
  (forall ns_id v, Omega config !! ns_id = Some v <-> In ns_id (S_ config) /\ v = ns_id).
Proof.
  unfold input_parsing_and_configuration_initialization. intros [= <- <- <-]. simpl.
  set (theta := list_to_set _ : gset string).
  set (st := foldl _ _ _).
  assert (Hok : init_ok theta st).
  { apply register_all_ok. split; [reflexivity|].
    intros ns_id served Hs. simpl in Hs. rewrite lookup_empty in Hs. discriminate. }
  destruct Hok as [Htheta Hgamma].
  split; [|split; [|split; [|split]]].
  - intros root Hr. apply list_elem_of_In, elem_of_elements in Hr.
    apply list_elem_of_In, elem_of_elements. apply Htheta, Hr.
  - intros ns_id served Hs. destruct (Hgamma _ _ Hs) as (Hin & Hnd & Hz).
    split; [apply list_elem_of_In, elem_of_elements; assumption | auto].
  - apply NoDup_ListNoDup, NoDup_elements.
  - apply NoDup_ListNoDup, NoDup_elements.
  - intros ns_id v. rewrite <- elem_of_list_to_map.
    + rewrite list_elem_of_fmap. split.
      * intros (x & [= -> ->] & Hx). split; [apply list_elem_of_In; assumption | reflexivity].
      * intros [Hin ->]. exists ns_id. split; [reflexivity | apply list_elem_of_In; assumption].
    + rewrite <- list_fmap_compose. simpl.
      replace (fmap _ (elements (s_set st))) with (elements (s_set st));
        [apply NoDup_elements|].
      symmetry. apply list_fmap_id.
Qed.

Lemma configuration_is_consistent_witness :
  exists config domain_to_zone out,
    input_parsing_and_configuration_initialization sample_disk (fun _ => [])
      "data/zone_files" (Decoded sample_metadata) = (config, domain_to_zone, out) /\
    (forall root, In root (Theta config) -> In root (S_ config)) /\
    List.NoDup (S_ config).
Proof.
  eexists _, _, _. split; [reflexivity|].
  destruct (configuration_is_consistent sample_disk (fun _ => []) "data/zone_files"
              sample_metadata _ _ _ eq_refl) as (Hroots & _ & Hnd & _).
  split; [exact Hroots | exact Hnd].
Defined.

(** An entry of [ZoneFiles] that declares no origin, or no file name, is
    ignored: the configuration, the zone map and the output are those of
    the metadata without that entry. *)
Theorem unusable_entries_are_ignored
    (disk : gmap string string) (zone_records : string -> list ResourceRecord)
    (dataset_path : string) (meta meta' : Metadata)
    (before after : list zone_info) (zi : zone_info) :
  ~ usable zi ->
  get_key (root_nameservers meta') (TopNameServers meta') []
    = get_key (root_nameservers meta) (TopNameServers meta) [] ->
  get_key (zones meta) (ZoneFiles meta) [] = (before ++ zi :: after)%list ->
  get_key (zones meta') (ZoneFiles meta') [] = (before ++ after)%list ->
  input_parsing_and_configuration_initialization disk zone_records dataset_path (Decoded meta)
  = input_parsing_and_configuration_initialization disk zone_records dataset_path
      (Decoded meta').
Proof.
  intros Hu Hroots Hl Hl'. unfold input_parsing_and_configuration_initialization.
  rewrite Hroots, Hl, Hl', skipped_entry_is_ignored by assumption. reflexivity.
Qed.

Lemma unusable_entries_are_ignored_witness :
  ~ usable nameless_entry /\
  input_parsing_and_configuration_initialization sample_disk (fun _ => []) "data"
    (Decoded (mkMetadata None (Some ["ns1.example."]) None
                         (Some [missing_entry; nameless_entry; present_entry])))
  = input_parsing_and_configuration_initialization sample_disk (fun _ => []) "data"
      (Decoded (mkMetadata None (Some ["ns1.example."]) None
                           (Some [missing_entry; present_entry]))).
Proof.
  assert (Hu : ~ usable nameless_entry) by (intros [Ho _]; apply Ho; reflexivity).
  split; [exact Hu|].
  exact (unusable_entries_are_ignored sample_disk (fun _ => []) "data"
           (mkMetadata None (Some ["ns1.example."]) None
                       (Some [missing_entry; nameless_entry; present_entry]))
           (mkMetadata None (Some ["ns1.example."]) None
                       (Some [missing_entry; present_entry]))
           [missing_entry] [present_entry] nameless_entry Hu eq_refl eq_refl eq_refl).
Defined.

End configuration_theorems.
(** ** Property verification and the final report *)

Section report_properties.

Import Groot_v1.

Lemma string_append_assoc (a b c : string) : (a ++ b) ++ c = a ++ (b ++ c).
Proof.
  induction a as [|x a IH]; [reflexivity|].
  change ((String x a ++ b) ++ c) with (String x ((a ++ b) ++ c)).
  rewrite IH. reflexivity.
Qed.

Lemma foldl_append {A B} (f : B -> list A) (l : list B) : forall acc,
  foldl (fun acc x => (acc ++ f x)%list) acc l = (acc ++ List.concat (List.map f l))%list.
Proof.
  induction l as [|x l IH]; intros acc; simpl.
  - rewrite app_nil_r. reflexivity.
  - rewrite IH, app_assoc. reflexivity.
Qed.

Lemma foldl_append_nested {A B} (f : B -> list A -> list A) (g : B -> list A)
    (l : list B) :
  (forall x acc, f x acc = (acc ++ g x)%list) ->
  forall acc, foldl (fun acc x => f x acc) acc l
              = (acc ++ List.concat (List.map g l))%list.
Proof.
  intros Hf. induction l as [|x l IH]; intros acc; simpl.
  - rewrite app_nil_r. reflexivity.
  - rewrite IH, Hf, app_assoc. reflexivity.
Qed.

(** The loop over the records, as counts and a selection. *)
Lemma tally_fold l : forall st logs,
  foldl tally (st, logs) l
  = (mkStats (total_ecs st + List.length l)
             (passed st + List.length (List.filter (fun r => negb (has_violation r)) l))
             (failed st + List.length (List.filter has_violation l)),
     (logs ++ List.map log_entry (List.filter has_violation l))%list).
Proof.
  induction l as [|r l IH]; intros st logs; simpl.
  - rewrite !Nat.add_0_r, app_nil_r. destruct st; reflexivity.
  - fold (has_violation r). destruct (has_violation r) eqn:Hr; rewrite IH; simpl.
    + rewrite <- app_assoc. simpl. f_equal. f_equal; lia.
    + f_equal. f_equal; lia.
Qed.

Lemma filter_length_split {A} (p : A -> bool) (l : list A) :
  List.length (List.filter (fun x => negb (p x)) l)
  = List.length l - List.length (List.filter p l).
Proof.
  induction l as [|x l IH]; simpl; [reflexivity|].
  pose proof (filter_length_le p l) as Hle.
  destruct (p x); simpl; lia.
Qed.

Section checks.

Variable _check_rewrite_loop : InterpretationGraph -> bool.
Variable _check_rewrite_blackholing : InterpretationGraph -> bool.
Variable _check_delegation_inconsistency : InterpretationGraph -> bool.
Variable _check_answer_inconsistency : InterpretationGraph -> bool.

Local Abbreviation check_ :=
  (check_property _check_rewrite_loop _check_rewrite_blackholing
     _check_delegation_inconsistency _check_answer_inconsistency).
Local Abbreviation verify_ :=
  (verify_properties _check_rewrite_loop _check_rewrite_blackholing
     _check_delegation_inconsistency _check_answer_inconsistency).

Lemma verify_properties_flat graphs jobs_config :
  verify_ graphs jobs_config
  = List.concat
      (List.map (fun graph =>
                   List.concat (List.map (check_ graph)
                                  (default default_props (properties jobs_config))))
                graphs).
Proof.
  unfold verify_properties.
  rewrite (foldl_append_nested
             (fun graph acc =>
                foldl (fun acc prop => (acc ++ check_ graph prop)%list) acc
                      (default default_props (properties jobs_config)))
             (fun graph =>
                List.concat (List.map (check_ graph)
                               (default default_props (properties jobs_config))))).
  - reflexivity.
  - intros graph acc. apply foldl_append.
Qed.

(** What one check appends: nothing, or the one record of the property. *)
Lemma check_property_cases graph prop :
  check_ graph prop = [] \/
  exists details,
    In prop default_props /\
    check_ graph prop = [violation prop details (graph_ec_id graph)].
Proof.
  unfold check_property.
  repeat match goal with
         | |- context [String.eqb prop ?s] =>
             destruct (String.eqb_spec prop s) as [->|?]
         end;
    try (left; reflexivity);
    match goal with
    | |- context [if ?c then _ else _] => destruct c
    end;
    try (left; reflexivity);
    right; eexists; (split; [|reflexivity]); simpl; tauto.
Qed.

Lemma check_property_unknown graph prop :
  Py.mem prop default_props = false -> check_ graph prop = [].
Proof.
  intros Hmem.
  destruct (check_property_cases graph prop) as [|(details & Hin & _)]; [assumption|].
  exfalso. apply (mem_In prop default_props) in Hin. congruence.
Qed.

Lemma violation_lacks_has_violation type_ details query_ :
  has_violation (violation type_ details query_) = false.
Proof.
  unfold has_violation, record_get, violation.
  rewrite !lookup_insert_ne by discriminate.
  rewrite lookup_singleton_ne by discriminate. reflexivity.
Qed.

Lemma verified_records graphs jobs_config r :
  In r (verify_ graphs jobs_config) ->
  exists graph prop details,
    In graph graphs /\
    In prop (default default_props (properties jobs_config)) /\
    In prop default_props /\
    r = violation prop details (graph_ec_id graph).
Proof.
  rewrite verify_properties_flat. intros Hin.
  apply in_concat in Hin as (l & Hl & Hr).
  apply in_map_iff in Hl as (graph & <- & Hg).
  apply in_concat in Hr as (l' & Hl' & Hr).
  apply in_map_iff in Hl' as (prop & <- & Hp).
  destruct (check_property_cases graph prop) as [He|(details & Hknown & He)];
    rewrite He in Hr; [destruct Hr|].
  destruct Hr as [<-|[]]. exists graph, prop, details. auto.
Qed.

Lemma known_filter graph props :
  List.concat (List.map (check_ graph)
                 (List.filter (fun prop => Py.mem prop default_props) props))
  = List.concat (List.map (check_ graph) props).
Proof.
  induction props as [|prop props' IHp]; [reflexivity|].
  cbn [List.filter]. destruct (Py.mem prop default_props) eqn:Hmem;
    cbn [List.map List.concat]; rewrite IHp; [reflexivity|].
  rewrite check_property_unknown by assumption. reflexivity.
Qed.

Lemma checks_length graph props :
  List.length (List.concat (List.map (check_ graph) props)) <= List.length props.
Proof.
  induction props as [|prop props' IHp]; simpl; [lia|].
  rewrite length_app.
  destruct (check_property_cases graph prop) as [->|(details & _ & ->)]; simpl; lia.
Qed.

End checks.

End report_properties.

Section report_theorems.

Import Groot_v1.

(** The report text is determined by the records that test as failing:
    one log line for each of them, in input order, followed by a summary
    in which the total is the number of records, the failed count is the
    number of failing records and passed and failed add up to the total.
    Without failing records the report is the summary alone. *)
Theorem report_summary_adds_up (verification_results : list (gmap string Py.value)) :
  generate_final_report verification_results
  = (match List.filter has_violation verification_results with
     | [] => ""
     | failing => Py.join Py.nl (List.map log_entry failing) ++ Py.nl ++ Py.nl
     end)
    ++ summary_section
         (mkStats (List.length verification_results)
                  (List.length verification_results
                   - List.length (List.filter has_violation verification_results))
                  (List.length (List.filter has_violation verification_results))).
Proof.
  unfold generate_final_report. rewrite tally_fold. simpl.
  rewrite filter_length_split.
  destruct (List.filter has_violation verification_results) as [|r rest]; [reflexivity|].
  rewrite !string_append_assoc. reflexivity.
Qed.

(** The records step 5 produces carry the keys [type], [details] and
    [query] and no key [has_violation], so the report of a verification
    run never lists a violation: whatever the checks found, it consists of
    the summary alone, counts every violation record as passed and states
    [Failed: 0]. *)
Theorem report_counts_every_violation_as_passed
    (_check_rewrite_loop _check_rewrite_blackholing
     _check_delegation_inconsistency _check_answer_inconsistency
       : InterpretationGraph -> bool)
    (interpretation_graphs : list InterpretationGraph) (jobs_config : JobsProperties) :
  generate_final_report
    (verify_properties _check_rewrite_loop _check_rewrite_blackholing
       _check_delegation_inconsistency _check_answer_inconsistency
       interpretation_graphs jobs_config)
  = "Total ECs: "
    ++ Py.str_nat (List.length
         (verify_properties _check_rewrite_loop _check_rewrite_blackholing
            _check_delegation_inconsistency _check_answer_inconsistency
            interpretation_graphs jobs_config))
    ++ Py.nl ++ "Passed: "
    ++ Py.str_nat (List.length
         (verify_properties _check_rewrite_loop _check_rewrite_blackholing
            _check_delegation_inconsistency _check_answer_inconsistency
            interpretation_graphs jobs_config))
    ++ Py.nl ++ "Failed: 0".
Proof.
  set (results := verify_properties _ _ _ _ _ _).
  assert (Hnone : List.filter has_violation results = []).
  { apply filter_none. intros r Hr.
    apply verified_records in Hr as (graph & prop & details & _ & _ & _ & ->).
    apply violation_lacks_has_violation. }
  unfold generate_final_report. rewrite tally_fold, Hnone, filter_length_split, Hnone.
  simpl. rewrite Nat.sub_0_r. reflexivity.
Qed.

(** Step 5 reports only on its input: every record it returns is the
    violation record of one of the five known properties, which is among
    the active ones, for the class id of one of the given graphs; there
    are at most as many records as pairs of a graph and an active
    property; and a property name that is not one of the five is ignored
    without notice. *)
Theorem verification_reports_known_properties_only
    (_check_rewrite_loop _check_rewrite_blackholing
     _check_delegation_inconsistency _check_answer_inconsistency
       : InterpretationGraph -> bool)
    (interpretation_graphs : list InterpretationGraph) (props : list string) :
  Forall (fun r => exists graph prop details,
            In graph interpretation_graphs /\ In prop props /\ In prop default_props /\
            r = violation prop details (graph_ec_id graph))
         (verify_properties _check_rewrite_loop _check_rewrite_blackholing
            _check_delegation_inconsistency _check_answer_inconsistency
            interpretation_graphs (mkJobs (Some props))) /\
  List.length
    (verify_properties _check_rewrite_loop _check_rewrite_blackholing
       _check_delegation_inconsistency _check_answer_inconsistency
       interpretation_graphs (mkJobs (Some props)))
    <= List.length interpretation_graphs * List.length props /\
  verify_properties _check_rewrite_loop _check_rewrite_blackholing
    _check_delegation_inconsistency _check_answer_inconsistency
    interpretation_graphs
    (mkJobs (Some (List.filter (fun prop => Py.mem prop default_props) props)))
  = verify_properties _check_rewrite_loop _check_rewrite_blackholing
      _check_delegation_inconsistency _check_answer_inconsistency
      interpretation_graphs (mkJobs (Some props)).
Proof.
  split; [|split].
  - apply Forall_forall. intros r Hr. apply list_elem_of_In in Hr.
    apply verified_records in Hr. exact Hr.
  - rewrite verify_properties_flat.
    change (default default_props (properties (mkJobs (Some props)))) with props.
    induction interpretation_graphs as [|graph graphs IH]; simpl; [lia|].
    rewrite length_app.
    pose proof (checks_length _check_rewrite_loop _check_rewrite_blackholing
                  _check_delegation_inconsistency _check_answer_inconsistency
                  graph props) as Hone.
    lia.
  - rewrite !verify_properties_flat. cbn [properties from_option id]. f_equal.
    apply map_ext. intros graph. apply known_filter.
Qed.

End report_theorems.
(** ** The graph of the baseline resolver *)

Section baseline_graph.

Import RawAPI.

Variable _server_lookup : DNSConfiguration -> DomainName -> Query -> DNSAnswer.
Variable config : DNSConfiguration.

Local Abbreviation step_ := (resolve_step _server_lookup config).
Local Abbreviation while_ := (while_q _server_lookup config).

Lemma has_node_In g key : has_node g key = true <-> In key (List.map fst (nodes g)).
Proof.
  unfold has_node. rewrite existsb_exists, in_map_iff. split.
  - intros (kv & Hin & Heq). apply bool_decide_eq_true in Heq. exists kv. auto.
  - intros (kv & Heq & Hin). exists kv. split; [assumption|].
    apply bool_decide_eq_true. assumption.
Qed.

Lemma add_node_has g ns_ cq answer d :
  has_node (add_node g ns_ cq answer d) (ns_, cq) = true.
Proof.
  unfold add_node. destruct (has_node g (ns_, cq)) eqn:Hh; [assumption|].
  apply has_node_In. simpl. rewrite map_app. apply in_or_app. right. left. reflexivity.
Qed.

Lemma add_node_keeps g ns_ cq answer d key :
  has_node g key = true -> has_node (add_node g ns_ cq answer d) key = true.
Proof.
  intros Hk. unfold add_node. destruct (has_node g (ns_, cq)); [assumption|].
  apply has_node_In. apply has_node_In in Hk. simpl. rewrite map_app.
  apply in_or_app. left. assumption.
Qed.

Lemma add_node_edges g ns_ cq answer d : edges (add_node g ns_ cq answer d) = edges g.
Proof. unfold add_node. destruct (has_node g _); reflexivity. Qed.

Lemma add_edge_keys g from_key to_key ty :
  List.map fst (nodes (add_edge g from_key to_key ty)) = List.map fst (nodes g).
Proof.
  simpl. rewrite List.map_map. apply map_ext. intros kv.
  case_bool_decide; reflexivity.
Qed.

Lemma add_edge_has g from_key to_key ty key :
  has_node (add_edge g from_key to_key ty) key = has_node g key.
Proof.
  apply eq_true_iff_eq. rewrite !has_node_In, add_edge_keys. reflexivity.
Qed.

Lemma add_edge_from_has g from_key to_key ty key :
  has_node (add_edge_from g from_key to_key ty) key = has_node g key.
Proof.
  unfold add_edge_from. destruct from_key as [[from_ns from_q]|]; [|reflexivity].
  case_bool_decide; [reflexivity | apply add_edge_has].
Qed.

Lemma add_node_ok g ns_ cq answer d :
  baseline_graph_ok g -> baseline_graph_ok (add_node g ns_ cq answer d).
Proof.
  intros (Hnd & Hnodes & Hedges). unfold add_node.
  destruct (has_node g (ns_, cq)) eqn:Hh; [repeat split; assumption|].
  assert (Hnew : ~ In (ns_, cq) (List.map fst (nodes g))).
  { intros Hin. apply has_node_In in Hin. congruence. }
  split; [|split]; simpl.
  - rewrite map_app. simpl. apply NoDup_ListNoDup, NoDup_app.
    split; [apply NoDup_ListNoDup; assumption|].
    split; [|apply NoDup_singleton].
    intros x Hx Hx'. apply list_elem_of_singleton in Hx'. subst x.
    apply Hnew, list_elem_of_In. assumption.
  - apply Forall_app. split.
    + eapply Forall_impl; [exact Hnodes|]. intros kv [Hk Hs]. split; assumption.
    + constructor; [|constructor]. simpl. split; [reflexivity|].
      unfold outgoing. simpl.
      destruct (existsb _ (edges g)) eqn:Hout; [|reflexivity].
      exfalso. apply existsb_exists in Hout as (e & He & Hfrom).
      apply bool_decide_eq_true in Hfrom.
      rewrite Forall_forall in Hedges.
      destruct (Hedges e (proj2 (list_elem_of_In _ _) He)) as (Hf & _).
      apply Hnew, has_node_In. rewrite <- Hfrom. assumption.
  - eapply Forall_impl; [exact Hedges|]. intros e (Hf & Ht & Hty).
    split; [|split; [|assumption]]; apply has_node_In; simpl; rewrite map_app;
      apply in_or_app; left; apply has_node_In; assumption.
Qed.

Lemma add_edge_ok g from_key to_key ty :
  baseline_graph_ok g ->
  has_node g from_key = true -> has_node g to_key = true ->
  ty = "Referral" \/ ty = "Timeout" ->
  baseline_graph_ok (add_edge g from_key to_key ty).
Proof.
  intros (Hnd & Hnodes & Hedges) Hfrom Hto Hty.
  split; [|split].
  - rewrite add_edge_keys. assumption.
  - simpl. apply Forall_fmap. eapply Forall_impl; [exact Hnodes|].
    intros kv [Hk Hs]. unfold compose, outgoing. simpl.
    rewrite existsb_app. simpl. rewrite orb_false_r.
    case_bool_decide as Hkv; simpl.
    + split; [assumption|]. rewrite Hkv.
      rewrite (bool_decide_eq_true_2 (from_key = from_key)) by reflexivity.
      rewrite orb_true_r. reflexivity.
    + split; [assumption|].
      rewrite (bool_decide_eq_false_2 (from_key = fst kv)) by congruence.
      rewrite orb_false_r. exact Hs.
  - change (edges (add_edge g from_key to_key ty))
      with (edges g ++ [mkEdge from_key to_key ty])%list.
    apply Forall_app. split.
    + eapply Forall_impl; [exact Hedges|]. intros e (Hf & Ht & Hy).
      rewrite !add_edge_has. auto.
    + constructor; [|constructor]. simpl. rewrite !add_edge_has. auto.
Qed.

Lemma add_edge_from_ok g from_key to_key ty :
  baseline_graph_ok g ->
  match from_key with Some key => has_node g key = true | None => True end ->
  has_node g to_key = true ->
  ty = "Referral" \/ ty = "Timeout" ->
  baseline_graph_ok (add_edge_from g from_key to_key ty).
Proof.
  intros Hok Hfrom Hto Hty. unfold add_edge_from.
  destruct from_key as [[from_ns from_q]|]; [|assumption].
  case_bool_decide; [assumption|]. apply add_edge_ok; assumption.
Qed.

Lemma next_entries_from ns_ cq d answer :
  Forall (fun e => from_ e = Some (ns_, cq)) (next_entries config ns_ cq d answer).
Proof.
  unfold next_entries. destruct answer; try (constructor; fail).
  - destruct (existsb _ (zones_of _ _)).
    + constructor; [reflexivity | constructor].
    + apply Forall_forall. intros e He. apply list_elem_of_In in He.
      apply in_map_iff in He as (x & <- & _). reflexivity.
  - apply Forall_forall. intros e He. apply list_elem_of_In in He.
    apply in_map_iff in He as (x & <- & _). reflexivity.
Qed.

Lemma resolve_step_ok st : resolver_ok st -> resolver_ok (step_ st).
Proof.
  intros [Hg Hq]. unfold resolve_step.
  destruct (q st) as [|e rest] eqn:Heq; [split; [|rewrite Heq]; assumption|].
  apply Forall_cons in Hq as [He Hrest]. cbv beta in He.
  case_bool_decide; [split; assumption|].
  assert (Hkeep : forall answer ty,
            Forall (fun e' => match from_ e' with
                              | Some key =>
                                  has_node
                                    (add_edge_from
                                       (add_node (graph st) (ns_domain e) (current_q e)
                                                 answer (entry_depth e))
                                       (from_ e) (ns_domain e, current_q e) ty) key = true
                              | None => True
                              end) rest).
  { intros answer ty. eapply Forall_impl; [exact Hrest|]. intros e' He'.
    cbv beta in He'. destruct (from_ e') as [key|]; [|exact I].
    rewrite add_edge_from_has. apply add_node_keeps. assumption. }
  assert (Hgraph : forall answer ty, ty = "Referral" \/ ty = "Timeout" ->
            baseline_graph_ok
              (add_edge_from
                 (add_node (graph st) (ns_domain e) (current_q e) answer (entry_depth e))
                 (from_ e) (ns_domain e, current_q e) ty)).
  { intros answer ty Hty. apply add_edge_from_ok.
    - apply add_node_ok. assumption.
    - destruct (from_ e) as [key|]; [|exact I]. apply add_node_keeps. assumption.
    - apply add_node_has.
    - assumption. }
  destruct (MAX_RESOLUTION_DEPTH <=? entry_depth e)%nat; split; simpl.
  - apply Hgraph. right. reflexivity.
  - apply Hkeep.
  - apply Hgraph. left. reflexivity.
  - apply Forall_app. split; [apply Hkeep|].
    eapply Forall_impl; [apply next_entries_from|]. intros e' ->.
    rewrite add_edge_from_has. apply add_node_has.
Qed.

Lemma while_q_ok fuel : forall st st',
  resolver_ok st -> while_ fuel st = Some st' -> resolver_ok st'.
Proof.
  induction fuel as [|fuel IH]; intros st st' Hinv; simpl.
  - destruct (q st); [|discriminate]. intros [= <-]. assumption.
  - destruct (q st).
    + intros [= <-]. assumption.
    + apply IH, resolve_step_ok. assumption.
Qed.

Lemma initial_state_ok query : resolver_ok (initial_state config query).
Proof.
  split.
  - split; [|split]; simpl; constructor.
  - simpl. apply Forall_forall. intros e He. apply list_elem_of_In in He.
    apply in_map_iff in He as (x & <- & _). exact I.
Qed.

(** The loop never touches the query and the entry points of the graph. *)
Lemma resolve_step_entry_points st :
  ec_query (graph (step_ st)) = ec_query (graph st) /\
  entry_points (graph (step_ st)) = entry_points (graph st).
Proof.
  assert (Hadd : forall g ns_ cq answer d from_key ty,
            ec_query (add_edge_from (add_node g ns_ cq answer d) from_key (ns_, cq) ty)
            = ec_query g /\
            entry_points (add_edge_from (add_node g ns_ cq answer d) from_key (ns_, cq) ty)
            = entry_points g).
  { intros g ns_ cq answer d from_key ty. unfold add_edge_from, add_node.
    destruct from_key as [[from_ns from_q]|]; [case_bool_decide|];
      destruct (has_node g (ns_, cq)); split; reflexivity. }
  unfold resolve_step. destruct (q st) as [|e rest]; [split; reflexivity|].
  case_bool_decide; [split; reflexivity|].
  destruct (MAX_RESOLUTION_DEPTH <=? entry_depth e)%nat; simpl; apply Hadd.
Qed.

Lemma while_q_entry_points fuel : forall st st',
  while_ fuel st = Some st' ->
  ec_query (graph st') = ec_query (graph st) /\
  entry_points (graph st') = entry_points (graph st).
Proof.
  induction fuel as [|fuel IH]; intros st st'; simpl.
  - destruct (q st); [|discriminate]. intros [= <-]. split; reflexivity.
  - destruct (q st).
    + intros [= <-]. split; reflexivity.
    + intros Hrun. destruct (IH _ _ Hrun) as [H1 H2].
      destruct (resolve_step_entry_points st) as [H3 H4].
      split; congruence.
Qed.

End baseline_graph.

Section baseline_graph_theorems.

Import RawAPI.

(** The graph the baseline resolver returns is well formed, for every
    single-server lookup: it keeps the query and has one entry point per
    top name server; no node key is recorded twice; every node is stored
    under its own server and query and is marked a sink exactly when no
    edge leaves it; and every edge joins two recorded nodes and is typed
    [Referral] or [Timeout], so that no edge is ever typed [Rewrite], not
    even the edge that follows a rewrite. *)
Theorem baseline_graph_is_well_formed
    (_server_lookup : DNSConfiguration -> DomainName -> Query -> DNSAnswer)
    (config : DNSConfiguration) (fuel : nat) (query : Query) (g : InterpretationGraph) :
  resolve _server_lookup config fuel query = Some g ->
  ec_query g = query /\
  entry_points g = List.map (fun ns_domain_ => (ns_domain_, query)) (top_name_servers config) /\
  baseline_graph_ok g /\
  Forall (fun e => edge_type e <> "Rewrite") (edges g).
Proof.
  unfold resolve. destruct (while_q _ _ fuel _) as [st|] eqn:Hrun; [|discriminate].
  intros [= <-].
  destruct (while_q_entry_points _ _ _ _ _ Hrun) as [Hq He].
  destruct (while_q_ok _ _ _ _ _ (initial_state_ok config query) Hrun) as [Hok _].
  split; [exact Hq|]. split; [exact He|]. split; [exact Hok|].
  destruct Hok as (_ & _ & Hedges). eapply Forall_impl; [exact Hedges|].
  intros e (_ & _ & [Hty|Hty]); rewrite Hty; discriminate.
Qed.

Lemma baseline_graph_is_well_formed_witness :
  exists g,
    resolve referring_lookup referring_config 5 referred_query = Some g /\
    ec_query g = referred_query /\
    entry_points g
    = List.map (fun ns_domain_ => (ns_domain_, referred_query))
               (top_name_servers referring_config) /\
    baseline_graph_ok g /\
    Forall (fun e => edge_type e <> "Rewrite") (edges g).
Proof.
  eexists. split; [vm_compute; reflexivity|].
  apply (baseline_graph_is_well_formed referring_lookup referring_config 5 referred_query).
  vm_compute. reflexivity.
Defined.

End baseline_graph_theorems.
